(** * The debug switch of the C++ serializer: [include/debug.h]

    The header is a handful of preprocessor lines: it defines the flag
    [AMQP_DEBUG] and, depending on the flag, the function-like macro
    [DBG(X)] either as [std::cout << X] or with an empty replacement list.

    The development embeds the header as a list of preprocessor directives
    over tokens, gives the directives their meaning (macro table, [#define],
    [#if] / [#else]), models the replacement of an invocation [DBG(...)],
    and gives the resulting token sequence its C++ meaning for a small
    expression language (literals, variables, calls, stream insertion,
    the conditional operator and the operators of the header's [#if]),
    first on a stream in its default configuration, then on a stream with
    a field width, a device that can fail and an exception mask. *)

From Stdlib Require Import ZArith NArith List String Ascii Bool Lia.
From Stdlib Require Import Strings.Byte.
From Stdlib Require Import DecimalString.
From stdpp Require Import base option strings gmap.

Set Warnings "-register-all".

Open Scope string_scope.
Open Scope list_scope.
Open Scope Z_scope.

(** ** Tokens *)

Inductive punct : Set :=
  | LParen | RParen | Comma | Semi | Scope
  | Shl | Ge | AndAnd | Minus | Quest | Colon.

Inductive token : Set :=
  | TId (x : string)      (* identifier *)
  | TInt (n : N)          (* integer literal *)
  | TStr (s : string)     (* string literal, without its quotes *)
  | TP (p : punct).       (* punctuator *)

#[global] Instance punct_eq_dec : EqDecision punct.
Proof. solve_decision. Defined.

#[global] Instance token_eq_dec : EqDecision token.
Proof. solve_decision. Defined.

(** ** Macros and the macro table *)

Inductive macro : Set :=
  | ObjMacro (body : list token)
  | FunMacro (params : list string) (body : list token).

#[global] Instance macro_eq_dec : EqDecision macro.
Proof. solve_decision. Defined.

(** What the compiler does with a [#define] of a name that is already
    defined with a different parameter list or replacement list.  The
    standard makes such a program ill-formed; compilers commonly emit a
    diagnostic and let the later definition replace the earlier one.
    Tokens carry no spelling and no white space, so two definitions that
    differ only in those (which a compiler also diagnoses) are one
    definition here. *)
Inductive redef_policy : Set :=
  | Reject          (* the diagnostic is an error *)
  | WarnLastWins.   (* the diagnostic is a warning, the new definition wins *)

Record pp_state : Type := PPState {
  macros : gmap string macro;   (* the macro table *)
  once : bool;                  (* [#pragma once] seen for this header *)
  redefined : list string       (* names whose redefinition was diagnosed *)
}.

Definition initial_pp (tbl : gmap string macro) : pp_state :=
  PPState tbl false [].

Definition define (pol : redef_policy) (x : string) (m : macro)
    (st : pp_state) : option pp_state :=
  match macros st !! x with
  | None => Some (PPState (<[x:=m]> (macros st)) (once st) (redefined st))
  | Some m0 =>
      if decide (m0 = m) then Some st
      else match pol with
           | Reject => None
           | WarnLastWins =>
               Some (PPState (<[x:=m]> (macros st)) (once st)
                             (redefined st ++ [x]))
           end
  end.

(** ** Expressions

    One grammar serves the controlling expression of [#if] and the C++
    expression statements of the call sites. *)

Inductive expr : Set :=
  | EInt (n : N)
  | EStr (s : string)
  | EId (x : string)
  | ECall (f : string)          (* f() *)
  | ECout                       (* std::cout *)
  | ENeg (a : expr)             (* - a *)
  | EShl (a b : expr)           (* a << b *)
  | EGe (a b : expr)            (* a >= b *)
  | EAnd (a b : expr)           (* a && b *)
  | ECond (c a b : expr).       (* c ? a : b *)

Definition parser : Type := list token -> option (expr * list token).

(** A left-associative chain [lhs op operand op operand ...]. *)
Fixpoint chain (op : punct) (mk : expr -> expr -> expr) (operand : parser)
    (fuel : nat) (lhs : expr) (ts : list token) : option (expr * list token) :=
  match ts with
  | TP p :: r =>
      if decide (p = op) then
        match fuel with
        | O => None
        | S fuel =>
            match operand r with
            | Some (rhs, r') => chain op mk operand fuel (mk lhs rhs) r'
            | None => None
            end
        end
      else Some (lhs, ts)
  | _ => Some (lhs, ts)
  end.

(** Primary expressions: literals, names, calls without arguments,
    [std::cout] and parenthesised expressions. *)
Definition parse_primary (sub : parser) : parser := fun ts =>
  match ts with
  | TInt n :: r => Some (EInt n, r)
  | TStr s :: r => Some (EStr s, r)
  | TId x :: TP Scope :: TId y :: r =>
      if (String.eqb x "std" && String.eqb y "cout")%bool then Some (ECout, r)
      else None
  | TId x :: TP Scope :: _ => None
  | TId f :: TP LParen :: TP RParen :: r => Some (ECall f, r)
  | TId f :: TP LParen :: _ => None
  | TId x :: r => Some (EId x, r)
  | TP LParen :: r =>
      match sub r with
      | Some (e, TP RParen :: r') => Some (e, r')
      | _ => None
      end
  | _ => None
  end.

Fixpoint parse_unary (sub : parser) (ts : list token)
    : option (expr * list token) :=
  match ts with
  | TP Minus :: r =>
      match parse_unary sub r with
      | Some (e, r') => Some (ENeg e, r')
      | None => None
      end
  | _ => parse_primary sub ts
  end.

(** Precedence, tightest first: unary, [<<], [>=], [&&], [?:]. *)
Fixpoint parse_conditional (fuel : nat) (ts : list token)
    : option (expr * list token) :=
  match fuel with
  | O => None
  | S fuel =>
      let unary := parse_unary (parse_conditional fuel) in
      let shift : parser := fun ts =>
        match unary ts with
        | Some (a, r) => chain Shl EShl unary fuel a r
        | None => None
        end in
      let rel : parser := fun ts =>
        match shift ts with
        | Some (a, r) => chain Ge EGe shift fuel a r
        | None => None
        end in
      let land : parser := fun ts =>
        match rel ts with
        | Some (a, r) => chain AndAnd EAnd rel fuel a r
        | None => None
        end in
      match land ts with
      | Some (c, TP Quest :: r1) =>
          match parse_conditional fuel r1 with
          | Some (a, TP Colon :: r2) =>
              match parse_conditional fuel r2 with
              | Some (b, r3) => Some (ECond c a b, r3)
              | None => None
              end
          | _ => None
          end
      | res => res
      end
  end.

(** A whole token sequence as one expression. *)
Definition parse_expr (ts : list token) : option expr :=
  match parse_conditional (S (length ts)) ts with
  | Some (e, []) => Some e
  | _ => None
  end.

(** ** The controlling expression of [#if] *)

(** [defined X] and [defined(X)] are answered from the macro table before
    any macro is replaced. *)
Fixpoint resolve_defined (tbl : gmap string macro) (ts : list token)
    : option (list token) :=
  let answer (x : string) : token :=
    TInt (if tbl !! x is Some _ then 1%N else 0%N) in
  match ts with
  | [] => Some []
  | TId d :: r =>
      if String.eqb d "defined" then
        match r with
        | TId x :: r' => cons (answer x) <$> resolve_defined tbl r'
        | TP LParen :: TId x :: TP RParen :: r' =>
            cons (answer x) <$> resolve_defined tbl r'
        | _ => None
        end
      else cons (TId d) <$> resolve_defined tbl r
  | t :: r => cons t <$> resolve_defined tbl r
  end.

(** Identifiers that name object-like macros are replaced by their
    replacement lists. *)
Fixpoint replace_objects (tbl : gmap string macro) (ts : list token)
    : list token :=
  match ts with
  | [] => []
  | TId x :: r =>
      match tbl !! x with
      | Some (ObjMacro body) => body ++ replace_objects tbl r
      | _ => TId x :: replace_objects tbl r
      end
  | t :: r => t :: replace_objects tbl r
  end.

(** The preprocessor computes in the widest signed integer type. *)
Definition intmax_max : Z := 2 ^ 63 - 1.

Definition truth (b : bool) : Z := if b then 1 else 0.

(** The value of a controlling expression.  Identifiers left after macro
    replacement count as 0.  No value is given to a literal beyond the
    widest signed type, to an identifier that still names an object-like
    macro (it would need a further replacement pass), or to string
    literals, calls, [std::cout] and shifts, none of which occurs in an
    integer flag value. *)
Fixpoint pp_eval (tbl : gmap string macro) (e : expr) : option Z :=
  match e with
  | EInt n => if decide (Z.of_N n <= intmax_max) then Some (Z.of_N n) else None
  | EId x =>
      match tbl !! x with
      | Some (ObjMacro _) => None
      | _ => Some 0
      end
  | ENeg a => Z.opp <$> pp_eval tbl a
  | EGe a b =>
      x ← pp_eval tbl a; y ← pp_eval tbl b; Some (truth (bool_decide (y <= x)))
  | EAnd a b =>
      x ← pp_eval tbl a; y ← pp_eval tbl b;
      Some (truth (bool_decide (x <> 0) && bool_decide (y <> 0)))
  | ECond c a b =>
      z ← pp_eval tbl c; x ← pp_eval tbl a; y ← pp_eval tbl b;
      Some (if decide (z <> 0) then x else y)
  | EStr _ | ECall _ | ECout | EShl _ _ => None
  end.

Definition eval_if (tbl : gmap string macro) (cond : list token)
    : option bool :=
  ts ← resolve_defined tbl cond;
  e ← parse_expr (replace_objects tbl ts);
  z ← pp_eval tbl e;
  Some (bool_decide (z <> 0)).

(** ** Directives *)

Inductive directive : Set :=
  | PragmaOnce
  | Define (name : string) (m : macro)
  | IfElse (cond : list token) (yes no : list directive).

Fixpoint run_directive (pol : redef_policy) (d : directive) (st : pp_state)
    : option pp_state :=
  match d with
  | PragmaOnce => Some (PPState (macros st) true (redefined st))
  | Define x m => define pol x m st
  | IfElse cond yes no =>
      let group :=
        fix group (ds : list directive) (st : pp_state) : option pp_state :=
          match ds with
          | [] => Some st
          | d :: ds =>
              match run_directive pol d st with
              | Some st' => group ds st'
              | None => None
              end
          end in
      match eval_if (macros st) cond with
      | Some true => group yes st
      | Some false => group no st
      | None => None
      end
  end.

Fixpoint run_directives (pol : redef_policy) (ds : list directive)
    (st : pp_state) : option pp_state :=
  match ds with
  | [] => Some st
  | d :: ds =>
      match run_directive pol d st with
      | Some st' => run_directives pol ds st'
      | None => None
      end
  end.

(** ** The header *)

(** Line 5: [#define AMQP_DEBUG 1] *)
Definition flag_default : directive :=
  Define "AMQP_DEBUG" (ObjMacro [TInt 1]).

(** Line 10: [#define DBG(X) std::cout << X] *)
Definition DBG_enabled : macro :=
  FunMacro ["X"] [TId "std"; TP Scope; TId "cout"; TP Shl; TId "X"].

(** Line 12: [#define DBG(X)] *)
Definition DBG_disabled : macro :=
  FunMacro ["X"] [].

(** Lines 9 to 13:
    [#if defined AMQP_DEBUG && AMQP_DEBUG >= 1] ... [#else] ... [#endif] *)
Definition switch_cond : list token :=
  [TId "defined"; TId "AMQP_DEBUG"; TP AndAnd; TId "AMQP_DEBUG"; TP Ge; TInt 1].

Definition switch : directive :=
  IfElse switch_cond [Define "DBG" DBG_enabled] [Define "DBG" DBG_disabled].

Definition debug_h : list directive :=
  [PragmaOnce; flag_default; switch].

(** [#include "debug.h"]: a header marked [#pragma once] is processed the
    first time only. *)
Definition include_debug_h (pol : redef_policy) (st : pp_state)
    : option pp_state :=
  if once st then Some st else run_directives pol debug_h st.

(** The replacement list of [#define AMQP_DEBUG z] for an integer [z]
    (also what [-DAMQP_DEBUG=z] on the command line gives). *)
Definition flag_tokens (z : Z) : list token :=
  if decide (z < 0) then [TP Minus; TInt (Z.to_N (- z))]
  else [TInt (Z.to_N z)].

(** The two compile-time modes, read off the table. *)
Inductive mode : Set := ENABLED | DISABLED.

Definition mode_of (tbl : gmap string macro) : option mode :=
  match tbl !! "DBG" with
  | Some m =>
      if decide (m = DBG_enabled) then Some ENABLED
      else if decide (m = DBG_disabled) then Some DISABLED
      else None
  | None => None
  end.

(** ** Invoking a function-like macro *)

(** The tokens between the parentheses of an invocation, split at the
    commas that are not inside nested parentheses. *)
Fixpoint split_args (depth : nat) (cur : list token) (ts : list token)
    : option (list (list token)) :=
  match ts with
  | [] => match depth with O => Some [rev cur] | S _ => None end
  | TP LParen :: r => split_args (S depth) (TP LParen :: cur) r
  | TP RParen :: r =>
      match depth with
      | O => None
      | S d => split_args d (TP RParen :: cur) r
      end
  | TP Comma :: r =>
      match depth with
      | O => cons (rev cur) <$> split_args O [] r
      | S _ => split_args depth (TP Comma :: cur) r
      end
  | t :: r => split_args depth (t :: cur) r
  end.

Fixpoint param_index (x : string) (ps : list string) : option nat :=
  match ps with
  | [] => None
  | p :: ps => if String.eqb x p then Some O else S <$> param_index x ps
  end.

(** Each parameter in the replacement list is replaced by its argument. *)
Fixpoint substitute (ps : list string) (args : list (list token))
    (body : list token) : list token :=
  match body with
  | [] => []
  | TId x :: r =>
      match param_index x ps with
      | Some i => default [] (args !! i) ++ substitute ps args r
      | None => TId x :: substitute ps args r
      end
  | t :: r => t :: substitute ps args r
  end.

(** As many arguments as parameters; [F()] also invokes a macro that has
    no parameter. *)
Definition arity_ok (ps : list string) (args : list (list token)) : bool :=
  match ps, args with
  | [], [[]] => true
  | _, _ => Nat.eqb (length args) (length ps)
  end.

(** The replacement of [name(ts)].  The arguments are taken as they stand:
    call sites are given with the macros of their arguments already
    replaced, and [std] and [cout] are not macro names. *)
Definition invoke (tbl : gmap string macro) (name : string)
    (ts : list token) : option (list token) :=
  match tbl !! name with
  | Some (FunMacro ps body) =>
      args ← split_args O [] ts;
      if arity_ok ps args then Some (substitute ps args body) else None
  | _ => None
  end.

(** A use of the emitter inside a statement: [before DBG(arg) after]. *)
Record site : Set := Site {
  before : list token;
  arg : list token;
  after : list token
}.

Definition expand_site (tbl : gmap string macro) (s : site)
    : option (list token) :=
  body ← invoke tbl "DBG" (arg s);
  Some (before s ++ body ++ after s).

(** The statement [DBG(arg);] *)
Definition DBG_stmt (arg : list token) : site := Site [] arg [TP Semi].

(** ** The C++ meaning of a call site *)

(** What the consumer's translation unit declares: global [int] variables
    and functions [int f()], a function being given by what it returns and
    what it does to the variables. *)
Inductive decl : Type :=
  | DVar
  | DFun (body : gmap string Z -> Z * gmap string Z).

Record state : Type := State {
  out : list byte;          (* the bytes written to standard output *)
  failed : bool;            (* [std::cout] is in a failed state *)
  store : gmap string Z;    (* the variables *)
  calls : list string       (* the calls made so far, oldest first *)
}.

Inductive ty : Set := TyInt | TyStr | TyStream.

#[global] Instance ty_eq_dec : EqDecision ty.
Proof. solve_decision. Defined.

Inductive value : Set :=
  | VInt (z : Z)
  | VStr (s : string)
  | VStream.                (* a reference to [std::cout] *)

(** Types.  [operator<<] inserts the integer and the string values; the
    condition of [?:] and the operands of [&&] convert to [bool].  The
    checker covers the fragment the call sites below are written in:
    expressions it does not type are ill-formed or outside the fragment
    (integer shifts, a function name used as a value). *)
Fixpoint type_of (G : gmap string decl) (e : expr) : option ty :=
  match e with
  | EInt n => if decide (Z.of_N n <= intmax_max) then Some TyInt else None
  | EStr _ => Some TyStr
  | EId x => match G !! x with Some DVar => Some TyInt | _ => None end
  | ECall f => match G !! f with Some (DFun _) => Some TyInt | _ => None end
  | ECout => Some TyStream
  | ENeg a => match type_of G a with Some TyInt => Some TyInt | _ => None end
  | EShl a b =>
      match type_of G a, type_of G b with
      | Some TyStream, Some TyInt | Some TyStream, Some TyStr => Some TyStream
      | _, _ => None
      end
  | EGe a b =>
      match type_of G a, type_of G b with
      | Some TyInt, Some TyInt => Some TyInt
      | _, _ => None
      end
  | EAnd a b =>
      match type_of G a, type_of G b with
      | Some _, Some _ => Some TyInt
      | _, _ => None
      end
  | ECond c a b =>
      match type_of G c, type_of G a, type_of G b with
      | Some _, Some ta, Some tb => if decide (ta = tb) then Some ta else None
      | _, _, _ => None
      end
  end.

(** The text [operator<<] produces for an integer under the stream's
    default formatting: decimal digits, with a leading minus sign for a
    negative number. *)
Definition render_int (z : Z) : list byte :=
  list_byte_of_string (NilZero.string_of_int (Z.to_int z)).

(** The text [operator<<] produces for a string: its characters up to the
    first null character. *)
Fixpoint c_string (x : string) : list byte :=
  match x with
  | EmptyString => []
  | String c r =>
      if Ascii.eqb c Ascii.zero then [] else byte_of_ascii c :: c_string r
  end.

Definition render (v : value) : option (list byte) :=
  match v with
  | VInt z => Some (render_int z)
  | VStr s => Some (c_string s)
  | VStream => None
  end.

(** A stream in a failed state drops what is inserted.  The stream is taken
    in its default configuration here (no pending field width, writes that
    succeed, no exception mask); the stream with its formatting state and
    its failures comes further down. *)
Definition write (bs : list byte) (s : state) : state :=
  if failed s then s else State (out s ++ bs) false (store s) (calls s).

Definition truthy (s : state) (v : value) : bool :=
  match v with
  | VInt z => bool_decide (z <> 0)
  | VStr _ => true
  | VStream => negb (failed s)
  end.

(** Evaluation, operands left to right (the order C++17 fixes for [<<]). *)
Fixpoint eval (G : gmap string decl) (e : expr) (s : state)
    : option (value * state) :=
  match e with
  | EInt n => Some (VInt (Z.of_N n), s)
  | EStr x => Some (VStr x, s)
  | EId x =>
      match G !! x with
      | Some DVar => Some (VInt (default 0 (store s !! x)), s)
      | _ => None
      end
  | ECall f =>
      match G !! f with
      | Some (DFun body) =>
          let r := body (store s) in
          Some (VInt (fst r), State (out s) (failed s) (snd r) (calls s ++ [f]))
      | _ => None
      end
  | ECout => Some (VStream, s)
  | ENeg a =>
      match eval G a s with
      | Some (VInt z, s1) => Some (VInt (- z), s1)
      | _ => None
      end
  | EShl a b =>
      match eval G a s with
      | Some (VStream, s1) =>
          match eval G b s1 with
          | Some (v, s2) =>
              match render v with
              | Some bs => Some (VStream, write bs s2)
              | None => None
              end
          | None => None
          end
      | _ => None
      end
  | EGe a b =>
      match eval G a s with
      | Some (VInt x, s1) =>
          match eval G b s1 with
          | Some (VInt y, s2) => Some (VInt (truth (bool_decide (y <= x))), s2)
          | _ => None
          end
      | _ => None
      end
  | EAnd a b =>
      match eval G a s with
      | Some (va, s1) =>
          if truthy s1 va then
            match eval G b s1 with
            | Some (vb, s2) => Some (VInt (truth (truthy s2 vb)), s2)
            | None => None
            end
          else Some (VInt 0, s1)
      | None => None
      end
  | ECond c a b =>
      match eval G c s with
      | Some (vc, s1) => if truthy s1 vc then eval G a s1 else eval G b s1
      | None => None
      end
  end.

(** Statements: the null statement [;] and the expression statement. *)
Inductive stmt : Set :=
  | SNull
  | SExpr (e : expr).

Definition parse_stmt (ts : list token) : option stmt :=
  match ts with
  | [TP Semi] => Some SNull
  | _ =>
      match parse_conditional (S (length ts)) ts with
      | Some (e, [TP Semi]) => Some (SExpr e)
      | _ => None
      end
  end.

Definition well_typed (G : gmap string decl) (st : stmt) : bool :=
  match st with
  | SNull => true
  | SExpr e => bool_decide (is_Some (type_of G e))
  end.

(** Compilation of the tokens of one statement: syntax, then types. *)
Definition compile (G : gmap string decl) (ts : list token) : option stmt :=
  st ← parse_stmt ts;
  if well_typed G st then Some st else None.

Definition exec (G : gmap string decl) (st : stmt) (s : state)
    : option state :=
  match st with
  | SNull => Some s
  | SExpr e => snd <$> eval G e s
  end.

Definition run_tokens (G : gmap string decl) (ts : list token) (s : state)
    : option state :=
  st ← compile G ts;
  exec G st s.

(** Building and running a call site under a macro table. *)
Definition compile_site (G : gmap string decl) (tbl : gmap string macro)
    (c : site) : option stmt :=
  ts ← expand_site tbl c;
  compile G ts.

Definition run_site (G : gmap string decl) (tbl : gmap string macro)
    (c : site) (s : state) : option state :=
  ts ← expand_site tbl c;
  run_tokens G ts s.

(** A fresh process: nothing written, the stream good, nothing called. *)
Definition start : state := State [] false ∅ [].

(** A process whose standard output has already failed. *)
Definition broken : state := State [] true ∅ [].

Fixpoint run_sites (G : gmap string decl) (tbl : gmap string macro)
    (cs : list site) (s : state) : option state :=
  match cs with
  | [] => Some s
  | c :: cs =>
      match run_site G tbl c s with
      | Some s' => run_sites G tbl cs s'
      | None => None
      end
  end.

(** ** Call sites used in the statements below *)

(** [V] is one macro argument: balanced parentheses, no comma outside
    them. *)
Definition one_argument (V : list token) : Prop :=
  split_args O [] V = Some [V].

(** The statement that streams [V] directly: [std::cout << V;] *)
Definition stream_stmt (V : list token) : list token :=
  [TId "std"; TP Scope; TId "cout"; TP Shl] ++ V ++ [TP Semi].

(** The values a call site streams: literals, variables, results of
    calls, and the stream itself, which has no inserter. *)
Inductive operand : Set :=
  | OInt (n : N)
  | OStr (x : string)
  | OVar (x : string)
  | OCall (f : string)
  | OCout.

Definition operand_tokens (o : operand) : list token :=
  match o with
  | OInt n => [TInt n]
  | OStr x => [TStr x]
  | OVar x => [TId x]
  | OCall f => [TId f; TP LParen; TP RParen]
  | OCout => [TId "std"; TP Scope; TId "cout"]
  end.

Definition operand_expr (o : operand) : expr :=
  match o with
  | OInt n => EInt n
  | OStr x => EStr x
  | OVar x => EId x
  | OCall f => ECall f
  | OCout => ECout
  end.

Definition streamable (G : gmap string decl) (e : expr) : Prop :=
  type_of G e = Some TyInt \/ type_of G e = Some TyStr.

(** An operand whose evaluation has no side effect. *)
Definition pure (o : operand) : bool :=
  match o with
  | OCall _ => false
  | _ => true
  end.

(** An argument made of a chain of insertions: [a << "sep" << b] *)
Definition chained (a : operand) (sep : string) (b : operand) : list token :=
  operand_tokens a ++ [TP Shl; TStr sep; TP Shl] ++ operand_tokens b.

(** An argument whose top operator binds more loosely than [<<]:
    [1 ? 2 : 3] *)
Definition choice : list token :=
  [TInt 1; TP Quest; TInt 2; TP Colon; TInt 3].

(** Statements that use the result of [DBG(X)] as a value. *)
Inductive value_context : Set :=
  | CInsert (x : string)          (* DBG(X) << "x"; *)
  | CParen                        (* (DBG(X)); *)
  | CCondition (x y : string)     (* DBG(X) ? "x" : "y"; *)
  | CConjunct.                    (* DBG(X) && 1; *)

Definition fill (k : value_context) (X : list token) : site :=
  match k with
  | CInsert x => Site [] X [TP Shl; TStr x; TP Semi]
  | CParen => Site [TP LParen] X [TP RParen; TP Semi]
  | CCondition x y => Site [] X [TP Quest; TStr x; TP Colon; TStr y; TP Semi]
  | CConjunct => Site [] X [TP AndAnd; TInt 1; TP Semi]
  end.

Definition has_type (v : value) (t : ty) : Prop :=
  match v, t with
  | VInt _, TyInt | VStr _, TyStr | VStream, TyStream => True
  | _, _ => False
  end.

(** Statements in a row: [DBG(V1); DBG(V2); ...] and, for string
    literals, [DBG("x1"); DBG("x2"); ...] *)
Definition emit_all (Vs : list (list token)) : list site :=
  map DBG_stmt Vs.

Definition emit_strings (xs : list string) : list site :=
  map (fun x => DBG_stmt [TStr x]) xs.

(** ** A sample consumer

    A translation unit with a counter and a function that returns the
    counter and increments it; used where a statement is instantiated. *)

Definition sideEffectingCall (m : gmap string Z) : Z * gmap string Z :=
  (default 0 (m !! "counter"),
   <["counter" := default 0 (m !! "counter") + 1]> m).

Definition consumer : gmap string decl :=
  {[ "counter" := DVar; "sideEffectingCall" := DFun sideEffectingCall ]}.

(** The macro table of a build in which the flag was given the value [z]
    by the time the conditional is reached. *)
Definition flag_table (z : Z) : gmap string macro :=
  {[ "AMQP_DEBUG" := ObjMacro (flag_tokens z) ]}.

Definition enabled_table : gmap string macro := {[ "DBG" := DBG_enabled ]}.
Definition disabled_table : gmap string macro := {[ "DBG" := DBG_disabled ]}.

(** A statement that passes [DBG(X)] to a function: [f(DBG(X));] *)
Definition as_argument (f : string) (X : list token) : site :=
  Site [TId f; TP LParen] X [TP RParen; TP Semi].

(** ** The stream with its field width and its failures

    The evaluation above takes [std::cout] in its default configuration: no
    pending field width, no exception mask, a device that takes what is
    written, functions that return.  The evaluation below adds what a
    program can change about that: the field width, which a formatted
    insertion uses and resets; a device that may take only part of what is
    written, which sets the failure flag; the exception mask of the stream;
    and functions that raise. *)

Inductive fresult : Type :=
  | Returns (z : Z) (m : gmap string Z)
  | Throws (m : gmap string Z).

Inductive rdecl : Type :=
  | RVar
  | RFun (body : gmap string Z -> fresult).

(** For the type checker a declaration is its kind. *)
Definition erase (d : rdecl) : decl :=
  match d with
  | RVar => DVar
  | RFun _ => DFun (fun m => (0, m))
  end.

Definition lift (d : decl) : rdecl :=
  match d with
  | DVar => RVar
  | DFun body => RFun (fun m => Returns (fst (body m)) (snd (body m)))
  end.

Record rstate : Type := RState {
  core : state;                 (* output, failure flag, variables, calls *)
  fwidth : nat;                 (* [std::cout.width()] *)
  fthrows : bool;               (* [std::cout.exceptions()] covers failures *)
  fdevice : list byte -> list byte -> nat
    (* how many of the bytes offered the device takes, given what it holds *)
}.

Inductive outcome (A : Type) : Type :=
  | Done (a : A)
  | Raised (r : rstate)         (* an exception leaves the statement *)
  | Stuck.                      (* ill-typed: not reached after compilation *)

Arguments Done {A} a.
Arguments Raised {A} r.
Arguments Stuck {A}.

Definition andthen {A B : Type} (o : outcome A) (k : A -> outcome B)
    : outcome B :=
  match o with
  | Done a => k a
  | Raised r => Raised r
  | Stuck => Stuck
  end.

(** Padding to the field width, with the default fill character and the
    default adjustment (spaces on the left). *)
Definition pad (w : nat) (t : list byte) : list byte :=
  replicate (w - length t) x20 ++ t.

Definition set_core (r : rstate) (s : state) (w : nat) : rstate :=
  RState s w (fthrows r) (fdevice r).

(** A failure is reported by an exception only if the mask asks for it. *)
Definition signal (r : rstate) : outcome rstate :=
  if fthrows r then Raised r else Done r.

(** A formatted insertion of the text [t].  On a stream that is not good
    nothing is attempted.  Otherwise the padded text is offered to the
    device and the width is reset; if the device does not take all of it
    the failure flag is set. *)
Definition put_text (t : list byte) (r : rstate) : outcome rstate :=
  let s := core r in
  if failed s then signal r
  else
    let p := pad (fwidth r) t in
    let n := fdevice r (out s) p in
    if (length p <=? n)%nat
    then Done (set_core r (State (out s ++ p) false (store s) (calls s)) O)
    else signal (set_core r (State (out s ++ take n p) true
                                   (store s) (calls s)) O).

Fixpoint reval (G : gmap string rdecl) (e : expr) (r : rstate)
    : outcome (value * rstate) :=
  match e with
  | EInt n => Done (VInt (Z.of_N n), r)
  | EStr x => Done (VStr x, r)
  | EId x =>
      match G !! x with
      | Some RVar => Done (VInt (default 0 (store (core r) !! x)), r)
      | _ => Stuck
      end
  | ECall f =>
      match G !! f with
      | Some (RFun body) =>
          let s := core r in
          match body (store s) with
          | Returns z m =>
              Done (VInt z,
                    set_core r (State (out s) (failed s) m (calls s ++ [f]))
                             (fwidth r))
          | Throws m =>
              Raised (set_core r (State (out s) (failed s) m (calls s ++ [f]))
                               (fwidth r))
          end
      | _ => Stuck
      end
  | ECout => Done (VStream, r)
  | ENeg a =>
      andthen (reval G a r) (fun p =>
        match fst p with
        | VInt z => Done (VInt (- z), snd p)
        | _ => Stuck
        end)
  | EShl a b =>
      andthen (reval G a r) (fun p =>
        match fst p with
        | VStream =>
            andthen (reval G b (snd p)) (fun q =>
              match render (fst q) with
              | Some t =>
                  andthen (put_text t (snd q)) (fun r' => Done (VStream, r'))
              | None => Stuck
              end)
        | _ => Stuck
        end)
  | EGe a b =>
      andthen (reval G a r) (fun p =>
        match fst p with
        | VInt x =>
            andthen (reval G b (snd p)) (fun q =>
              match fst q with
              | VInt y => Done (VInt (truth (bool_decide (y <= x))), snd q)
              | _ => Stuck
              end)
        | _ => Stuck
        end)
  | EAnd a b =>
      andthen (reval G a r) (fun p =>
        if truthy (core (snd p)) (fst p) then
          andthen (reval G b (snd p)) (fun q =>
            Done (VInt (truth (truthy (core (snd q)) (fst q))), snd q))
        else Done (VInt 0, snd p))
  | ECond c a b =>
      andthen (reval G c r) (fun p =>
        if truthy (core (snd p)) (fst p) then reval G a (snd p)
        else reval G b (snd p))
  end.

Definition rexec (G : gmap string rdecl) (st : stmt) (r : rstate)
    : outcome rstate :=
  match st with
  | SNull => Done r
  | SExpr e => andthen (reval G e r) (fun p => Done (snd p))
  end.

Definition rrun_tokens (G : gmap string rdecl) (ts : list token)
    (r : rstate) : outcome rstate :=
  match compile (erase <$> G) ts with
  | Some st => rexec G st r
  | None => Stuck
  end.

Definition rrun_site (G : gmap string rdecl) (tbl : gmap string macro)
    (c : site) (r : rstate) : outcome rstate :=
  match expand_site tbl c with
  | Some ts => rrun_tokens G ts r
  | None => Stuck
  end.

Fixpoint rrun_sites (G : gmap string rdecl) (tbl : gmap string macro)
    (cs : list site) (r : rstate) : outcome rstate :=
  match cs with
  | [] => Done r
  | c :: cs => andthen (rrun_site G tbl c r) (rrun_sites G tbl cs)
  end.

(** The bytes written when a statement has run to its end. *)
Definition written {A : Type} (f : A -> rstate) (o : outcome A)
    : option (list byte) :=
  match o with
  | Done a => Some (out (core (f a)))
  | _ => None
  end.

(** No function of the translation unit raises. *)
Definition calm (G : gmap string rdecl) : Prop :=
  forall f body m, G !! f = Some (RFun body) ->
                   exists z m', body m = Returns z m'.

(** The device takes whatever it is offered. *)
Definition accepting (r : rstate) : Prop :=
  forall h t, (length t <= fdevice r h t)%nat.

(** A stream as the evaluation without formatting state takes it: no
    pending field width, a clear exception mask, writes that succeed. *)
Definition default_stream (r : rstate) : Prop :=
  fwidth r = O /\ fthrows r = false /\ accepting r.

(** A good stream with no pending field width whose writes succeed. *)
Definition plain (r : rstate) : Prop :=
  failed (core r) = false /\ fwidth r = O /\ accepting r.

(** The sample consumer and some streams. *)
Definition rconsumer : gmap string rdecl := lift <$> consumer.

Definition takes_all (h t : list byte) : nat := length t.
Definition takes_nothing (h t : list byte) : nat := O.

(** A fresh process. *)
Definition fresh_stream : rstate := RState start O false takes_all.

(** After [std::cout.width(4)]. *)
Definition width4 : rstate := RState start 4 false takes_all.

(** A device that has stopped taking bytes, without and with
    [std::cout.exceptions(std::ios::badbit)]. *)
Definition closed : rstate := RState start O false takes_nothing.
Definition closed_throwing : rstate := RState start O true takes_nothing.

(** A translation unit whose function [mayThrow] raises. *)
Definition raising_consumer : gmap string rdecl :=
  {[ "mayThrow" := RFun (fun m => Throws m) ]}.

(** * Properties *)

(** ** The conditional of lines 9 to 13 *)

Ltac pp_step :=
  cbn [resolve_defined replace_objects String.eqb Ascii.eqb Bool.eqb app
       fmap option_fmap option_map mbind option_bind pp_eval].

Lemma parse_flag_nonneg (d n k : N) :
  parse_expr [TInt d; TP AndAnd; TInt n; TP Ge; TInt k]
  = Some (EAnd (EInt d) (EGe (EInt n) (EInt k))).
Proof. reflexivity. Qed.

Lemma parse_flag_neg (d n k : N) :
  parse_expr [TInt d; TP AndAnd; TP Minus; TInt n; TP Ge; TInt k]
  = Some (EAnd (EInt d) (EGe (ENeg (EInt n)) (EInt k))).
Proof. reflexivity. Qed.

Lemma parse_flag_absent (d k : N) (x : string) :
  parse_expr [TInt d; TP AndAnd; TId x; TP Ge; TInt k]
  = Some (EAnd (EInt d) (EGe (EId x) (EInt k))).
Proof. reflexivity. Qed.

Lemma intmax_max_eq : intmax_max = 9223372036854775807.
Proof. reflexivity. Qed.

Lemma eval_if_undefined (tbl : gmap string macro) :
  tbl !! "AMQP_DEBUG" = None -> eval_if tbl switch_cond = Some false.
Proof.
  intros H. unfold eval_if, switch_cond. pp_step. rewrite H. pp_step.
  rewrite ?H. rewrite parse_flag_absent. pp_step. rewrite ?H.
  rewrite !decide_True by (rewrite intmax_max_eq; lia). reflexivity.
Qed.

Lemma eval_if_int (tbl : gmap string macro) (z : Z) :
  tbl !! "AMQP_DEBUG" = Some (ObjMacro (flag_tokens z)) ->
  - intmax_max <= z <= intmax_max ->
  eval_if tbl switch_cond = Some (bool_decide (1 <= z)).
Proof.
  intros H Hz. rewrite intmax_max_eq in Hz.
  unfold eval_if, switch_cond. pp_step. rewrite H. pp_step. rewrite ?H.
  unfold flag_tokens. case_decide; pp_step.
  - rewrite parse_flag_neg. pp_step. rewrite !Z2N.id by lia.
    change (Z.of_N 1) with 1.
    rewrite !decide_True by (rewrite intmax_max_eq; lia). pp_step.
    f_equal. unfold truth.
    repeat (case_bool_decide; cbn [andb] in * ); try reflexivity; lia.
  - rewrite parse_flag_nonneg. pp_step. rewrite !Z2N.id by lia.
    change (Z.of_N 1) with 1.
    rewrite !decide_True by (rewrite intmax_max_eq; lia). pp_step.
    f_equal. unfold truth.
    repeat (case_bool_decide; cbn [andb] in * ); try reflexivity; lia.
Qed.

Lemma run_switch (pol : redef_policy) (st : pp_state) (b : bool) :
  eval_if (macros st) switch_cond = Some b ->
  macros st !! "DBG" = None ->
  run_directive pol switch st
  = Some (PPState (<["DBG" := if b then DBG_enabled else DBG_disabled]>
                     (macros st)) (once st) (redefined st)).
Proof.
  intros Hc Hd. unfold switch. cbn [run_directive]. rewrite Hc.
  destruct b; cbn [run_directive]; unfold define; rewrite Hd; reflexivity.
Qed.

Lemma flag_tokens_1 : flag_tokens 1 = [TInt 1].
Proof. reflexivity. Qed.

Lemma flag_tokens_0 : flag_tokens 0 = [TInt 0].
Proof. reflexivity. Qed.

Lemma run_switch_on (pol : redef_policy) (st : pp_state) :
  macros st !! "AMQP_DEBUG" = Some (ObjMacro [TInt 1]) ->
  macros st !! "DBG" = None ->
  run_directive pol switch st
  = Some (PPState (<["DBG" := DBG_enabled]> (macros st))
                  (once st) (redefined st)).
Proof.
  intros Hf Hd. rewrite <- flag_tokens_1 in Hf.
  rewrite (run_switch pol st true); [reflexivity | | exact Hd].
  rewrite (eval_if_int _ 1 Hf); [reflexivity | rewrite intmax_max_eq; lia].
Qed.

Lemma run_switch_off (pol : redef_policy) (st : pp_state) :
  macros st !! "AMQP_DEBUG" = None
  \/ macros st !! "AMQP_DEBUG" = Some (ObjMacro [TInt 0]) ->
  macros st !! "DBG" = None ->
  run_directive pol switch st
  = Some (PPState (<["DBG" := DBG_disabled]> (macros st))
                  (once st) (redefined st)).
Proof.
  intros [Hf | Hf] Hd.
  - rewrite (run_switch pol st false); [reflexivity | | exact Hd].
    apply eval_if_undefined, Hf.
  - rewrite <- flag_tokens_0 in Hf.
    rewrite (run_switch pol st false); [reflexivity | | exact Hd].
    rewrite (eval_if_int _ 0 Hf); [reflexivity | rewrite intmax_max_eq; lia].
Qed.

Lemma mode_of_insert_enabled (tbl : gmap string macro) :
  mode_of (<["DBG" := DBG_enabled]> tbl) = Some ENABLED.
Proof. unfold mode_of. rewrite lookup_insert_eq. reflexivity. Qed.

Lemma mode_of_insert_disabled (tbl : gmap string macro) :
  mode_of (<["DBG" := DBG_disabled]> tbl) = Some DISABLED.
Proof. unfold mode_of. rewrite lookup_insert_eq. reflexivity. Qed.

Lemma mode_enabled_lookup (tbl : gmap string macro) :
  mode_of tbl = Some ENABLED -> tbl !! "DBG" = Some DBG_enabled.
Proof.
  unfold mode_of. destruct (tbl !! "DBG") as [m|]; [|discriminate].
  repeat case_decide; congruence.
Qed.

Lemma mode_disabled_lookup (tbl : gmap string macro) :
  mode_of tbl = Some DISABLED -> tbl !! "DBG" = Some DBG_disabled.
Proof.
  unfold mode_of. destruct (tbl !! "DBG") as [m|]; [|discriminate].
  repeat case_decide; congruence.
Qed.

(** ** The header as a whole *)

Lemma include_fresh (pol : redef_policy) (tbl : gmap string macro) :
  tbl !! "AMQP_DEBUG" = None ->
  tbl !! "DBG" = None ->
  include_debug_h pol (initial_pp tbl)
  = Some (PPState (<["DBG" := DBG_enabled]>
                     (<["AMQP_DEBUG" := ObjMacro [TInt 1]]> tbl)) true []).
Proof.
  intros Hf Hd. unfold include_debug_h, initial_pp, debug_h. cbn [once].
  cbn [run_directives run_directive flag_default]. unfold define at 1.
  cbn [macros once redefined]. rewrite Hf.
  rewrite run_switch_on; cbn [macros once redefined].
  - reflexivity.
  - apply lookup_insert_eq.
  - rewrite lookup_insert_ne by discriminate. exact Hd.
Qed.

Lemma include_last_wins (tbl : gmap string macro) :
  tbl !! "DBG" = None ->
  exists st,
    include_debug_h WarnLastWins (initial_pp tbl) = Some st
    /\ macros st = <["DBG" := DBG_enabled]>
                     (<["AMQP_DEBUG" := ObjMacro [TInt 1]]> tbl)
    /\ redefined st
       = match tbl !! "AMQP_DEBUG" with
         | Some m0 =>
             if decide (m0 = ObjMacro [TInt 1]) then [] else ["AMQP_DEBUG"]
         | None => []
         end.
Proof.
  intros Hd. unfold include_debug_h, initial_pp, debug_h. cbn [once].
  cbn [run_directives run_directive flag_default]. unfold define at 1.
  cbn [macros once redefined].
  destruct (tbl !! "AMQP_DEBUG") as [m0|] eqn:Hf.
  - destruct (decide (m0 = ObjMacro [TInt 1])) as [->|Hne].
    + rewrite run_switch_on; cbn [macros once redefined]; try assumption.
      eexists; split; [reflexivity|]. cbn [macros redefined].
      rewrite (insert_id tbl "AMQP_DEBUG") by exact Hf. auto.
    + rewrite run_switch_on; cbn [macros once redefined].
      * eexists; split; [reflexivity|]. cbn [macros redefined]. auto.
      * apply lookup_insert_eq.
      * rewrite lookup_insert_ne by discriminate. exact Hd.
  - rewrite run_switch_on; cbn [macros once redefined].
    + eexists; split; [reflexivity|]. cbn [macros redefined]. auto.
    + apply lookup_insert_eq.
    + rewrite lookup_insert_ne by discriminate. exact Hd.
Qed.

Lemma include_reject (tbl : gmap string macro) :
  tbl !! "DBG" = None ->
  include_debug_h Reject (initial_pp tbl) = None
  <-> exists m0, tbl !! "AMQP_DEBUG" = Some m0 /\ m0 <> ObjMacro [TInt 1].
Proof.
  intros Hd. unfold include_debug_h, initial_pp, debug_h. cbn [once].
  cbn [run_directives run_directive flag_default]. unfold define at 1.
  cbn [macros once redefined].
  destruct (tbl !! "AMQP_DEBUG") as [m0|] eqn:Hf.
  - destruct (decide (m0 = ObjMacro [TInt 1])) as [->|Hne].
    + rewrite run_switch_on; cbn [macros once redefined]; try assumption.
      split; [discriminate|]. intros (m & Hm & Hne). congruence.
    + split; [|reflexivity]. intros _. exists m0. auto.
  - rewrite run_switch_on; cbn [macros once redefined].
    + split; [discriminate|]. intros (m & Hm & _). discriminate.
    + apply lookup_insert_eq.
    + rewrite lookup_insert_ne by discriminate. exact Hd.
Qed.

(** ** [#pragma once] *)

Lemma define_once (pol : redef_policy) (x : string) (m : macro)
    (st st' : pp_state) :
  define pol x m st = Some st' -> once st' = once st.
Proof.
  unfold define. destruct (macros st !! x) as [m0|].
  - case_decide; [congruence|]. destruct pol; [discriminate|].
    intros [= <-]. reflexivity.
  - intros [= <-]. reflexivity.
Qed.

Lemma switch_once (pol : redef_policy) (st st' : pp_state) :
  run_directive pol switch st = Some st' -> once st' = once st.
Proof.
  unfold switch. cbn [run_directive].
  destruct (eval_if (macros st) switch_cond) as [[|]|]; [| |discriminate].
  - destruct (define pol "DBG" DBG_enabled st) as [st1|] eqn:Hd;
      [|discriminate].
    intros [= <-]. apply (define_once _ _ _ _ _ Hd).
  - destruct (define pol "DBG" DBG_disabled st) as [st1|] eqn:Hd;
      [|discriminate].
    intros [= <-]. apply (define_once _ _ _ _ _ Hd).
Qed.

(** A second inclusion of the header in the same translation unit changes
    nothing. *)
Lemma include_twice (pol : redef_policy) (st st' : pp_state) :
  include_debug_h pol st = Some st' -> include_debug_h pol st' = Some st'.
Proof.
  unfold include_debug_h at 1. destruct (once st) eqn:Ho.
  - intros [= <-]. unfold include_debug_h. rewrite Ho. reflexivity.
  - unfold debug_h. cbn [run_directives run_directive flag_default].
    destruct (define pol "AMQP_DEBUG" (ObjMacro [TInt 1])
                (PPState (macros st) true (redefined st)))
      as [st1|] eqn:Hd; [|discriminate].
    destruct (run_directive pol switch st1) as [st2|] eqn:Hs; [|discriminate].
    intros [= <-]. unfold include_debug_h.
    rewrite (switch_once _ _ _ Hs), (define_once _ _ _ _ _ Hd). reflexivity.
Qed.

(** ** Writing to the stream *)

Lemma write_failed (bs : list byte) (s : state) :
  failed (write bs s) = failed s.
Proof. unfold write. destruct (failed s) eqn:H; [exact H | reflexivity]. Qed.

Lemma write_good (bs : list byte) (s : state) :
  failed s = false ->
  write bs s = State (out s ++ bs) false (store s) (calls s).
Proof. intros H. unfold write. rewrite H. reflexivity. Qed.

Lemma write_out (bs : list byte) (s : state) :
  out (write bs s) = out s ++ (if failed s then [] else bs).
Proof.
  unfold write. destruct (failed s) eqn:H; cbn [out].
  - rewrite app_nil_r. reflexivity.
  - reflexivity.
Qed.

(** ** Streaming an operand *)

Lemma one_argument_operand (o : operand) : one_argument (operand_tokens o).
Proof. destruct o; reflexivity. Qed.

Lemma parse_stream_operand (o : operand) :
  parse_stmt (stream_stmt (operand_tokens o))
  = Some (SExpr (EShl ECout (operand_expr o))).
Proof. destruct o; reflexivity. Qed.

Lemma type_of_stream_operand (G : gmap string decl) (o : operand) :
  streamable G (operand_expr o) ->
  type_of G (EShl ECout (operand_expr o)) = Some TyStream.
Proof. intros [H | H]; cbn [type_of]; rewrite H; reflexivity. Qed.

Lemma streamable_string (G : gmap string decl) (x : string) :
  streamable G (operand_expr (OStr x)).
Proof. right. reflexivity. Qed.

Lemma eval_operand (G : gmap string decl) (o : operand) (s : state) :
  streamable G (operand_expr o) ->
  exists v s1 bs,
    eval G (operand_expr o) s = Some (v, s1)
    /\ render v = Some bs
    /\ out s1 = out s /\ failed s1 = failed s.
Proof.
  intros Hs. destruct o as [n | x | x | f |]; cbn [operand_expr] in *.
  - eexists _, _, _. cbn [eval render]. auto.
  - eexists _, _, _. cbn [eval render]. auto.
  - destruct Hs as [H | H]; cbn [type_of] in H;
      destruct (G !! x) as [[|body]|] eqn:Hx; try discriminate.
    eexists _, _, _. cbn [eval render]. rewrite Hx. auto.
  - destruct Hs as [H | H]; cbn [type_of] in H;
      destruct (G !! f) as [[|body]|] eqn:Hf; try discriminate.
    eexists _, _, _. cbn [eval render]. rewrite Hf. cbn [out failed]. auto.
  - destruct Hs as [H | H]; discriminate.
Qed.

Lemma run_stream_operand (G : gmap string decl) (o : operand) (s : state)
    (v : value) (s1 : state) (bs : list byte) :
  streamable G (operand_expr o) ->
  eval G (operand_expr o) s = Some (v, s1) ->
  render v = Some bs ->
  run_tokens G (stream_stmt (operand_tokens o)) s = Some (write bs s1).
Proof.
  intros Hs He Hr. unfold run_tokens, compile.
  rewrite parse_stream_operand. cbn [mbind option_bind well_typed].
  rewrite (type_of_stream_operand G o Hs).
  rewrite bool_decide_eq_true_2 by (eexists; reflexivity).
  cbn [mbind option_bind exec eval]. rewrite He, Hr. reflexivity.
Qed.

(** [std::cout << std::cout;] has no inserter to use (C++11 and later). *)
Lemma stream_of_stream_rejected (G : gmap string decl) :
  compile G (stream_stmt (operand_tokens OCout)) = None.
Proof. reflexivity. Qed.

Lemma parse_enabled_value (o : operand) :
  parse_expr ([TId "std"; TP Scope; TId "cout"; TP Shl] ++ operand_tokens o)
  = Some (EShl ECout (operand_expr o)).
Proof. destruct o; reflexivity. Qed.

(** ** Arguments that are themselves built with operators *)

Lemma one_argument_chained (a : operand) (sep : string) (b : operand) :
  one_argument (chained a sep b).
Proof. destruct a, b; reflexivity. Qed.

Lemma parse_chained (a : operand) (sep : string) (b : operand) :
  parse_stmt (stream_stmt (chained a sep b))
  = Some (SExpr (EShl (EShl (EShl ECout (operand_expr a)) (EStr sep))
                      (operand_expr b))).
Proof. destruct a, b; reflexivity. Qed.

Lemma type_of_chained (G : gmap string decl) (a : operand) (sep : string)
    (b : operand) :
  streamable G (operand_expr a) ->
  streamable G (operand_expr b) ->
  type_of G (EShl (EShl (EShl ECout (operand_expr a)) (EStr sep))
                  (operand_expr b)) = Some TyStream.
Proof.
  intros [Ha | Ha] [Hb | Hb]; cbn [type_of]; rewrite Ha, Hb; reflexivity.
Qed.

Lemma run_choice (G : gmap string decl) (s : state) :
  compile G (stream_stmt choice)
  = Some (SExpr (ECond (EShl ECout (EInt 1)) (EInt 2) (EInt 3)))
  /\ compile G (stream_stmt ([TP LParen] ++ choice ++ [TP RParen]))
     = Some (SExpr (EShl ECout (ECond (EInt 1) (EInt 2) (EInt 3))))
  /\ run_tokens G (stream_stmt choice) s = Some (write (render_int 1) s)
  /\ run_tokens G (stream_stmt ([TP LParen] ++ choice ++ [TP RParen])) s
     = Some (write (render_int 2) s).
Proof.
  assert (H1 : compile G (stream_stmt choice)
               = Some (SExpr (ECond (EShl ECout (EInt 1)) (EInt 2) (EInt 3))))
    by reflexivity.
  assert (H2 : compile G (stream_stmt ([TP LParen] ++ choice ++ [TP RParen]))
               = Some (SExpr (EShl ECout (ECond (EInt 1) (EInt 2) (EInt 3)))))
    by reflexivity.
  unfold run_tokens. rewrite H1, H2. cbn [mbind option_bind exec eval render].
  split; [reflexivity|]. split; [reflexivity|]. split.
  - cbn [truthy]. rewrite write_failed.
    destruct (failed s) eqn:Hf; reflexivity.
  - reflexivity.
Qed.

(** ** Call sites of an enabled build *)

Section Enabled.

Context (tbl : gmap string macro).
Context (Hen : tbl !! "DBG" = Some DBG_enabled).
Context (G : gmap string decl).

Lemma invoke_enabled (V : list token) :
  one_argument V ->
  invoke tbl "DBG" V = Some ([TId "std"; TP Scope; TId "cout"; TP Shl] ++ V).
Proof.
  intros HV. unfold invoke. rewrite Hen. unfold DBG_enabled.
  rewrite HV. cbn. rewrite app_nil_r. reflexivity.
Qed.

Lemma expand_enabled (V : list token) :
  one_argument V -> expand_site tbl (DBG_stmt V) = Some (stream_stmt V).
Proof.
  intros HV. unfold expand_site, DBG_stmt. cbn [arg before after].
  rewrite (invoke_enabled V HV). cbn [mbind option_bind].
  unfold stream_stmt. rewrite <- app_assoc. reflexivity.
Qed.

Lemma compile_enabled (V : list token) :
  one_argument V ->
  compile_site G tbl (DBG_stmt V) = compile G (stream_stmt V).
Proof.
  intros HV. unfold compile_site. rewrite (expand_enabled V HV). reflexivity.
Qed.

Lemma run_enabled (V : list token) (s : state) :
  one_argument V ->
  run_site G tbl (DBG_stmt V) s = run_tokens G (stream_stmt V) s.
Proof.
  intros HV. unfold run_site. rewrite (expand_enabled V HV). reflexivity.
Qed.

Lemma run_enabled_operand (o : operand) (s : state) (v : value) (s1 : state)
    (bs : list byte) :
  streamable G (operand_expr o) ->
  eval G (operand_expr o) s = Some (v, s1) ->
  render v = Some bs ->
  run_site G tbl (DBG_stmt (operand_tokens o)) s = Some (write bs s1).
Proof.
  intros Hs He Hr. rewrite (run_enabled _ s (one_argument_operand o)).
  apply (run_stream_operand G o s v s1 bs); assumption.
Qed.

Lemma run_enabled_string (x : string) (s : state) :
  failed s = false ->
  run_site G tbl (DBG_stmt [TStr x]) s
  = Some (State (out s ++ c_string x) false (store s) (calls s)).
Proof.
  intros Hg. change [TStr x] with (operand_tokens (OStr x)).
  rewrite (run_enabled_operand (OStr x) s (VStr x) s (c_string x)
             (streamable_string G x) eq_refl eq_refl).
  rewrite write_good by exact Hg. reflexivity.
Qed.

(** The statement formed by a value context around [DBG(o)], after
    replacement. *)
Lemma parse_fill_enabled (k : value_context) (o : operand) :
  expand_site tbl (fill k (operand_tokens o)) ≫= parse_stmt
  = Some (SExpr
            match k with
            | CInsert x => EShl (EShl ECout (operand_expr o)) (EStr x)
            | CParen => EShl ECout (operand_expr o)
            | CCondition x y =>
                ECond (EShl ECout (operand_expr o)) (EStr x) (EStr y)
            | CConjunct => EAnd (EShl ECout (operand_expr o)) (EInt 1)
            end).
Proof.
  unfold expand_site.
  assert (Harg : arg (fill k (operand_tokens o)) = operand_tokens o)
    by (destruct k; reflexivity).
  rewrite Harg, (invoke_enabled _ (one_argument_operand o)).
  cbn [mbind option_bind]. destruct k, o; reflexivity.
Qed.

Lemma compile_fill_enabled (k : value_context) (o : operand) :
  streamable G (operand_expr o) ->
  is_Some (compile_site G tbl (fill k (operand_tokens o))).
Proof.
  intros Hs. unfold compile_site, compile.
  pose proof (parse_fill_enabled k o) as Hp.
  destruct (expand_site tbl (fill k (operand_tokens o))) as [ts|];
    [|discriminate]. cbn [mbind option_bind] in *. rewrite Hp.
  cbn [mbind option_bind well_typed].
  pose proof (type_of_stream_operand G o Hs) as Hty.
  rewrite bool_decide_eq_true_2; [eexists; reflexivity|].
  destruct k; cbn [type_of] in *; rewrite Hty; eexists; reflexivity.
Qed.

End Enabled.

(** ** Call sites of a disabled build *)

Section Disabled.

Context (tbl : gmap string macro).
Context (Hdis : tbl !! "DBG" = Some DBG_disabled).
Context (G : gmap string decl).

Lemma invoke_disabled (V : list token) :
  one_argument V -> invoke tbl "DBG" V = Some [].
Proof.
  intros HV. unfold invoke. rewrite Hdis. unfold DBG_disabled.
  rewrite HV. reflexivity.
Qed.

(** What is left of a call site is what surrounds the invocation. *)
Lemma expand_disabled (c : site) :
  one_argument (arg c) -> expand_site tbl c = Some (before c ++ after c).
Proof.
  intros HV. unfold expand_site. rewrite (invoke_disabled _ HV). reflexivity.
Qed.

Lemma run_disabled (V : list token) (s : state) :
  one_argument V ->
  expand_site tbl (DBG_stmt V) = Some [TP Semi]
  /\ compile_site G tbl (DBG_stmt V) = Some SNull
  /\ run_site G tbl (DBG_stmt V) s = Some s.
Proof.
  intros HV. unfold compile_site, run_site.
  rewrite (expand_disabled (DBG_stmt V) HV). auto.
Qed.

Lemma compile_fill_disabled (k : value_context) (o : operand) :
  compile_site G tbl (fill k (operand_tokens o)) = None.
Proof.
  unfold compile_site. rewrite expand_disabled.
  - destruct k; reflexivity.
  - destruct k; apply one_argument_operand.
Qed.

End Disabled.

(** ** The shape of an invocation *)

Example two_arguments_rejected :
  invoke enabled_table "DBG" [TInt 1; TP Comma; TInt 2] = None
  /\ invoke disabled_table "DBG" [TInt 1; TP Comma; TInt 2] = None.
Proof. split; reflexivity. Qed.

Example comma_inside_parentheses :
  one_argument [TP LParen; TInt 1; TP Comma; TInt 2; TP RParen].
Proof. reflexivity. Qed.

Example empty_argument :
  invoke enabled_table "DBG" []
  = Some [TId "std"; TP Scope; TId "cout"; TP Shl]
  /\ compile consumer [TId "std"; TP Scope; TId "cout"; TP Shl; TP Semi] = None
  /\ invoke disabled_table "DBG" [] = Some [].
Proof. repeat split; reflexivity. Qed.

Example string_stops_at_null :
  c_string (String "a" (String Ascii.zero (String "b" EmptyString)))
  = c_string "a".
Proof. reflexivity. Qed.

Example render_negative : render_int (-15) = c_string "-15".
Proof. reflexivity. Qed.

(** * The claims *)

(** C1.  When the flag is defined as 0, or is not defined, at the
    conditional of lines 9 to 13, [DBG] is defined with an empty
    replacement list: for every argument [E], [DBG(E)] is replaced by no
    token, the statement [DBG(E);] is the null statement, and running it
    leaves the whole state as it was: [E] is not evaluated, so the
    variables and the call log are unchanged, and no byte is written. *)
Theorem disabled_flag_erases_emission
    (pol : redef_policy) (st : pp_state) (G : gmap string decl)
    (E : list token) (s : state) :
  macros st !! "AMQP_DEBUG" = None
  \/ macros st !! "AMQP_DEBUG" = Some (ObjMacro [TInt 0]) ->
  macros st !! "DBG" = None ->
  one_argument E ->
  exists st',
    run_directive pol switch st = Some st'
    /\ mode_of (macros st') = Some DISABLED
    /\ invoke (macros st') "DBG" E = Some []
    /\ compile_site G (macros st') (DBG_stmt E) = Some SNull
    /\ run_site G (macros st') (DBG_stmt E) s = Some s.
Proof.
  intros Hf Hd HE. eexists. split; [apply run_switch_off; assumption|].
  cbn [macros]. split; [apply mode_of_insert_disabled|].
  assert (Hl : (<["DBG" := DBG_disabled]> (macros st) : gmap string macro)
               !! "DBG" = Some DBG_disabled) by apply lookup_insert_eq.
  split; [apply (invoke_disabled _ Hl E HE)|].
  apply (run_disabled _ Hl G E s HE).
Qed.

Lemma disabled_flag_erases_emission_witness :
  exists st',
    run_directive Reject switch (initial_pp (flag_table 0)) = Some st'
    /\ mode_of (macros st') = Some DISABLED
    /\ invoke (macros st') "DBG" (operand_tokens (OCall "sideEffectingCall"))
       = Some []
    /\ compile_site consumer (macros st')
         (DBG_stmt (operand_tokens (OCall "sideEffectingCall"))) = Some SNull
    /\ run_site consumer (macros st')
         (DBG_stmt (operand_tokens (OCall "sideEffectingCall"))) start
       = Some start.
Proof.
  apply (disabled_flag_erases_emission Reject (initial_pp (flag_table 0))
           consumer (operand_tokens (OCall "sideEffectingCall")) start).
  - right. reflexivity.
  - reflexivity.
  - reflexivity.
Defined.

(** C2 as stated fails.  With [AMQP_DEBUG] defined as 0 before the header is
    included, line 5 redefines it.  A compiler that refuses the redefinition
    does not build; one that lets the later definition win diagnoses the
    redefinition and builds an enabled emitter, so that [DBG("x");] writes
    [x].  Under neither policy does the build succeed with no output. *)
Lemma external_zero_is_overridden :
  include_debug_h Reject (initial_pp (flag_table 0)) = None
  /\ (redefined <$> include_debug_h WarnLastWins (initial_pp (flag_table 0)))
     = Some ["AMQP_DEBUG"]
  /\ (out <$> (include_debug_h WarnLastWins (initial_pp (flag_table 0))
                 ≫= λ st, run_site consumer (macros st)
                             (DBG_stmt [TStr "x"]) start))
     = Some (c_string "x")
  /\ ~ (exists st,
          include_debug_h Reject (initial_pp (flag_table 0)) = Some st
          /\ out <$> run_site consumer (macros st) (DBG_stmt [TStr "x"]) start
             = Some [])
  /\ ~ (exists st,
          include_debug_h WarnLastWins (initial_pp (flag_table 0)) = Some st
          /\ out <$> run_site consumer (macros st) (DBG_stmt [TStr "x"]) start
             = Some []).
Proof.
  split; [reflexivity|]. split; [reflexivity|]. split; [reflexivity|]. split.
  - intros (st & H & _). discriminate H.
  - intros (st & H & Ho). vm_compute in H. injection H as <-.
    vm_compute in Ho. discriminate Ho.
Qed.

(** C2, amended.  Line 5 takes priority over a definition of the flag made
    before the header is included.  Where the compiler lets a later
    definition replace an earlier one, the flag is 1 after the header
    whatever was defined before, the build is in enabled mode and
    [DBG("x");] writes [x]; the replaced definition is diagnosed when it
    differs from [1].  Where the compiler refuses such a redefinition, the
    build fails exactly when the earlier definition differs from [1]. *)
Theorem header_definition_takes_priority
    (tbl : gmap string macro) (G : gmap string decl) (s : state) :
  tbl !! "DBG" = None ->
  failed s = false ->
  (exists st,
     include_debug_h WarnLastWins (initial_pp tbl) = Some st
     /\ macros st !! "AMQP_DEBUG" = Some (ObjMacro [TInt 1])
     /\ mode_of (macros st) = Some ENABLED
     /\ redefined st
        = match tbl !! "AMQP_DEBUG" with
          | Some m0 =>
              if decide (m0 = ObjMacro [TInt 1]) then [] else ["AMQP_DEBUG"]
          | None => []
          end
     /\ run_site G (macros st) (DBG_stmt [TStr "x"]) s
        = Some (State (out s ++ c_string "x") false
                      (store s) (calls s)))
  /\ (include_debug_h Reject (initial_pp tbl) = None
      <-> exists m0,
            tbl !! "AMQP_DEBUG" = Some m0 /\ m0 <> ObjMacro [TInt 1]).
Proof.
  intros Hd Hg. split; [|apply include_reject, Hd].
  destruct (include_last_wins tbl Hd) as (st & Hst & Hm & Hr).
  exists st. split; [exact Hst|]. rewrite Hm.
  split; [rewrite lookup_insert_ne by discriminate; apply lookup_insert_eq|].
  split; [apply mode_of_insert_enabled|]. split; [exact Hr|].
  apply run_enabled_string; [apply lookup_insert_eq | exact Hg].
Qed.

Lemma header_definition_takes_priority_witness :
  (exists st,
     include_debug_h WarnLastWins (initial_pp (flag_table 0)) = Some st
     /\ macros st !! "AMQP_DEBUG" = Some (ObjMacro [TInt 1])
     /\ mode_of (macros st) = Some ENABLED
     /\ redefined st
        = match flag_table 0 !! "AMQP_DEBUG" with
          | Some m0 =>
              if decide (m0 = ObjMacro [TInt 1]) then [] else ["AMQP_DEBUG"]
          | None => []
          end
     /\ run_site consumer (macros st) (DBG_stmt [TStr "x"]) start
        = Some (State (out start ++ c_string "x") false
                      (store start) (calls start)))
  /\ (include_debug_h Reject (initial_pp (flag_table 0)) = None
      <-> exists m0,
            flag_table 0 !! "AMQP_DEBUG" = Some m0
            /\ m0 <> ObjMacro [TInt 1]).
Proof.
  apply (header_definition_takes_priority (flag_table 0) consumer start);
    reflexivity.
Defined.

(** C3.  In an enabled build the tokens of [DBG(V);] are those of
    [std::cout << V;], for every argument [V], so the two statements build
    and run alike.  For a streamable value [o] (a literal, a variable or the
    result of a call) the statement evaluates [o] once and inserts its text:
    the final state is the state after that one evaluation with the bytes of
    the value appended to the output of a good stream, and nothing more. *)
Theorem enabled_pass_through
    (tbl : gmap string macro) (G : gmap string decl) (V : list token)
    (o : operand) (s : state) :
  mode_of tbl = Some ENABLED ->
  one_argument V ->
  streamable G (operand_expr o) ->
  expand_site tbl (DBG_stmt V) = Some (stream_stmt V)
  /\ run_site G tbl (DBG_stmt V) s = run_tokens G (stream_stmt V) s
  /\ exists v s1 bs,
       eval G (operand_expr o) s = Some (v, s1)
       /\ render v = Some bs
       /\ run_site G tbl (DBG_stmt (operand_tokens o)) s
          = Some (write bs s1)
       /\ (failed s = false ->
           write bs s1 = State (out s ++ bs) false (store s1) (calls s1)).
Proof.
  intros Hm HV Hs. apply mode_enabled_lookup in Hm.
  split; [apply expand_enabled; assumption|].
  split; [apply run_enabled; assumption|].
  destruct (eval_operand G o s Hs) as (v & s1 & bs & He & Hr & Ho & Hfl).
  exists v, s1, bs. split; [exact He|]. split; [exact Hr|].
  split; [apply (run_enabled_operand tbl Hm G o s v s1 bs); assumption|].
  intros Hg. rewrite write_good by congruence. rewrite Ho. reflexivity.
Qed.

Lemma enabled_pass_through_witness :
  expand_site enabled_table (DBG_stmt [TInt 42]) = Some (stream_stmt [TInt 42])
  /\ run_site consumer enabled_table (DBG_stmt [TInt 42]) start
     = run_tokens consumer (stream_stmt [TInt 42]) start
  /\ exists v s1 bs,
       eval consumer (operand_expr (OCall "sideEffectingCall")) start
       = Some (v, s1)
       /\ render v = Some bs
       /\ run_site consumer enabled_table
            (DBG_stmt (operand_tokens (OCall "sideEffectingCall"))) start
          = Some (write bs s1)
       /\ (failed start = false ->
           write bs s1
           = State (out start ++ bs) false (store s1) (calls s1)).
Proof.
  apply (enabled_pass_through enabled_table consumer [TInt 42]
           (OCall "sideEffectingCall") start).
  - reflexivity.
  - reflexivity.
  - left. reflexivity.
Defined.

(** C4 as stated fails.  At the conditional, a flag defined as the nonzero
    integer -1 selects the disabled mode, not the enabled one, since the
    test is [>= 1].  And a flag defined as 0 before the header is included
    does not give a disabled build, since line 5 redefines it: the build is
    refused, or enabled. *)
Lemma negative_flag_disables :
  (run_directive Reject switch (initial_pp (flag_table (-1)))
     ≫= λ st, mode_of (macros st)) = Some DISABLED
  /\ (run_directive Reject switch (initial_pp (flag_table (-1)))
        ≫= λ st, mode_of (macros st)) <> Some ENABLED
  /\ (include_debug_h Reject (initial_pp (flag_table 0))
        ≫= λ st, mode_of (macros st)) <> Some DISABLED
  /\ (include_debug_h WarnLastWins (initial_pp (flag_table 0))
        ≫= λ st, mode_of (macros st)) <> Some DISABLED.
Proof. vm_compute. repeat split; try reflexivity; discriminate. Qed.

(** C4, amended.  With the flag absent before the header is included the
    build is enabled, by the default of line 5.  At the conditional of line
    9 a flag whose value is an integer [z] selects the enabled mode exactly
    when [z >= 1]: the value 0 and every negative value select the disabled
    mode. *)
Theorem flag_surface
    (pol : redef_policy) (tbl : gmap string macro) (st : pp_state) (z : Z) :
  tbl !! "AMQP_DEBUG" = None ->
  tbl !! "DBG" = None ->
  macros st !! "AMQP_DEBUG" = Some (ObjMacro (flag_tokens z)) ->
  macros st !! "DBG" = None ->
  - intmax_max <= z <= intmax_max ->
  (exists st0,
     include_debug_h pol (initial_pp tbl) = Some st0
     /\ mode_of (macros st0) = Some ENABLED)
  /\ (exists st',
        run_directive pol switch st = Some st'
        /\ mode_of (macros st')
           = Some (if decide (1 <= z) then ENABLED else DISABLED)).
Proof.
  intros Hf Hd Hz Hd' Hr. split.
  - eexists. split; [apply include_fresh; assumption|].
    apply mode_of_insert_enabled.
  - eexists. split.
    + apply run_switch; [apply eval_if_int; eassumption | exact Hd'].
    + cbn [macros]. case_bool_decide.
      * rewrite decide_True by assumption. apply mode_of_insert_enabled.
      * rewrite decide_False by assumption. apply mode_of_insert_disabled.
Qed.

Lemma flag_surface_witness :
  (exists st0,
     include_debug_h Reject (initial_pp ∅) = Some st0
     /\ mode_of (macros st0) = Some ENABLED)
  /\ (exists st',
        run_directive Reject switch (initial_pp (flag_table (-1))) = Some st'
        /\ mode_of (macros st')
           = Some (if decide (1 <= -1) then ENABLED else DISABLED)).
Proof.
  apply (flag_surface Reject ∅ (initial_pp (flag_table (-1))) (-1));
    try reflexivity.
  vm_compute. split; discriminate.
Defined.

(** C5.  When [AMQP_DEBUG] is not defined where the conditional is
    evaluated, the controlling expression has the value false, the
    conditional is processed without any diagnostic, whatever the policy,
    [DBG] gets the empty replacement list, and [DBG(E);] compiles to the
    null statement, which evaluates nothing and writes nothing. *)
Theorem undefined_flag_defaults_to_disabled
    (pol : redef_policy) (st : pp_state) (G : gmap string decl)
    (E : list token) (s : state) :
  macros st !! "AMQP_DEBUG" = None ->
  macros st !! "DBG" = None ->
  one_argument E ->
  eval_if (macros st) switch_cond = Some false
  /\ exists st',
       run_directive pol switch st = Some st'
       /\ redefined st' = redefined st
       /\ macros st' !! "DBG" = Some DBG_disabled
       /\ compile_site G (macros st') (DBG_stmt E) = Some SNull
       /\ run_site G (macros st') (DBG_stmt E) s = Some s.
Proof.
  intros Hf Hd HE. split; [apply eval_if_undefined, Hf|].
  eexists. split; [apply run_switch_off; auto|].
  cbn [macros redefined]. split; [reflexivity|].
  assert (Hl : (<["DBG" := DBG_disabled]> (macros st) : gmap string macro)
               !! "DBG" = Some DBG_disabled) by apply lookup_insert_eq.
  split; [exact Hl|]. apply (run_disabled _ Hl G E s HE).
Qed.

Lemma undefined_flag_defaults_to_disabled_witness :
  eval_if (macros (initial_pp ∅)) switch_cond = Some false
  /\ exists st',
       run_directive Reject switch (initial_pp ∅) = Some st'
       /\ redefined st' = redefined (initial_pp ∅)
       /\ macros st' !! "DBG" = Some DBG_disabled
       /\ compile_site consumer (macros st')
            (DBG_stmt (operand_tokens (OCall "sideEffectingCall")))
          = Some SNull
       /\ run_site consumer (macros st')
            (DBG_stmt (operand_tokens (OCall "sideEffectingCall"))) start
          = Some start.
Proof.
  apply (undefined_flag_defaults_to_disabled Reject (initial_pp ∅) consumer
           (operand_tokens (OCall "sideEffectingCall")) start);
    reflexivity.
Defined.

(** C6.  With no definition of the flag (and none of [DBG]) before the
    header is included, the header is processed without a diagnostic, the
    build is in enabled mode by line 5, and [DBG("x");] appends exactly the
    byte of [x] to the output and changes nothing else; from a fresh
    process the output is [x]. *)
Theorem default_build_is_enabled
    (pol : redef_policy) (tbl : gmap string macro) (G : gmap string decl)
    (s : state) :
  tbl !! "AMQP_DEBUG" = None ->
  tbl !! "DBG" = None ->
  failed s = false ->
  exists st,
    include_debug_h pol (initial_pp tbl) = Some st
    /\ redefined st = []
    /\ mode_of (macros st) = Some ENABLED
    /\ run_site G (macros st) (DBG_stmt [TStr "x"]) s
       = Some (State (out s ++ c_string "x") false
                     (store s) (calls s)).
Proof.
  intros Hf Hd Hg. eexists. split; [apply include_fresh; assumption|].
  cbn [macros redefined]. split; [reflexivity|].
  split; [apply mode_of_insert_enabled|].
  apply run_enabled_string; [apply lookup_insert_eq | exact Hg].
Qed.

Lemma default_build_is_enabled_witness :
  exists st,
    include_debug_h Reject (initial_pp ∅) = Some st
    /\ redefined st = []
    /\ mode_of (macros st) = Some ENABLED
    /\ run_site consumer (macros st) (DBG_stmt [TStr "x"]) start
       = Some (State (out start ++ c_string "x") false
                     (store start) (calls start)).
Proof.
  apply (default_build_is_enabled Reject ∅ consumer start); reflexivity.
Defined.

(** C9.  The argument is spliced after [std::cout <<] without parentheses.
    A chain [DBG(a << "sep" << b)] is one argument, and the statement
    evaluates [a], writes it, writes the separator, evaluates [b] and writes
    it, in that order.  For the argument [1 ? 2 : 3], whose operator binds
    more loosely than [<<], [DBG(1 ? 2 : 3);] is the statement
    [(std::cout << 1) ? 2 : 3;] and writes [1], whereas streaming the
    parenthesised expression, [std::cout << (1 ? 2 : 3);], writes [2]. *)
Theorem argument_is_spliced_unparenthesised
    (tbl : gmap string macro) (G : gmap string decl) (a b : operand)
    (sep : string) (s : state) :
  mode_of tbl = Some ENABLED ->
  streamable G (operand_expr a) ->
  streamable G (operand_expr b) ->
  failed s = false ->
  (one_argument (chained a sep b)
   /\ exists va s1 ra vb s2 rb,
        eval G (operand_expr a) s = Some (va, s1)
        /\ render va = Some ra
        /\ eval G (operand_expr b)
             (write (c_string sep) (write ra s1)) = Some (vb, s2)
        /\ render vb = Some rb
        /\ run_site G tbl (DBG_stmt (chained a sep b)) s
           = Some (State (out s ++ ra ++ c_string sep ++ rb) false
                         (store s2) (calls s2)))
  /\ (one_argument choice
      /\ compile_site G tbl (DBG_stmt choice)
         = Some (SExpr (ECond (EShl ECout (EInt 1)) (EInt 2) (EInt 3)))
      /\ compile G (stream_stmt ([TP LParen] ++ choice ++ [TP RParen]))
         = Some (SExpr (EShl ECout (ECond (EInt 1) (EInt 2) (EInt 3))))
      /\ out <$> run_site G tbl (DBG_stmt choice) s
         = Some (out s ++ list_byte_of_string "1")
      /\ out <$> run_tokens G
                   (stream_stmt ([TP LParen] ++ choice ++ [TP RParen])) s
         = Some (out s ++ list_byte_of_string "2")).
Proof.
  intros Hm Ha Hb Hg. apply mode_enabled_lookup in Hm. split.
  - split; [apply one_argument_chained|].
    destruct (eval_operand G a s Ha) as (va & s1 & ra & Hea & Hra & Hoa & Hfa).
    destruct (eval_operand G b
                (write (c_string sep) (write ra s1)) Hb)
      as (vb & s2 & rb & Heb & Hrb & Hob & Hfb).
    exists va, s1, ra, vb, s2, rb.
    split; [exact Hea|]. split; [exact Hra|].
    split; [exact Heb|]. split; [exact Hrb|].
    rewrite (run_enabled tbl Hm G _ s (one_argument_chained a sep b)).
    unfold run_tokens, compile. rewrite parse_chained.
    cbn [mbind option_bind well_typed].
    rewrite (type_of_chained G a sep b Ha Hb).
    rewrite bool_decide_eq_true_2 by (eexists; reflexivity).
    cbn [mbind option_bind exec eval]. rewrite Hea, Hra.
    cbn [render]. rewrite Heb, Hrb. cbn [fmap option_fmap option_map snd].
    f_equal. rewrite !write_failed in Hfb. rewrite !write_out in Hob.
    rewrite write_failed in Hob.
    assert (Hf1 : failed s1 = false) by congruence.
    rewrite Hf1 in Hob. rewrite write_good by congruence.
    rewrite Hob, Hoa, <- !app_assoc. reflexivity.
  - destruct (run_choice G s) as (H1 & H2 & H3 & H4).
    split; [reflexivity|].
    split; [rewrite (compile_enabled tbl Hm G choice eq_refl); exact H1|].
    split; [exact H2|].
    rewrite (run_enabled tbl Hm G choice s eq_refl), H3, H4.
    cbn [fmap option_fmap option_map]. rewrite !write_out, Hg.
    split; reflexivity.
Qed.

Lemma argument_is_spliced_unparenthesised_witness :
  (one_argument (chained (OInt 12) " " (OCall "sideEffectingCall"))
   /\ exists va s1 ra vb s2 rb,
        eval consumer (operand_expr (OInt 12)) start = Some (va, s1)
        /\ render va = Some ra
        /\ eval consumer (operand_expr (OCall "sideEffectingCall"))
             (write (c_string " ") (write ra s1)) = Some (vb, s2)
        /\ render vb = Some rb
        /\ run_site consumer enabled_table
             (DBG_stmt (chained (OInt 12) " " (OCall "sideEffectingCall")))
             start
           = Some (State (out start ++ ra ++ c_string " " ++ rb)
                         false (store s2) (calls s2)))
  /\ (one_argument choice
      /\ compile_site consumer enabled_table (DBG_stmt choice)
         = Some (SExpr (ECond (EShl ECout (EInt 1)) (EInt 2) (EInt 3)))
      /\ compile consumer (stream_stmt ([TP LParen] ++ choice ++ [TP RParen]))
         = Some (SExpr (EShl ECout (ECond (EInt 1) (EInt 2) (EInt 3))))
      /\ out <$> run_site consumer enabled_table (DBG_stmt choice) start
         = Some (out start ++ list_byte_of_string "1")
      /\ out <$> run_tokens consumer
                   (stream_stmt ([TP LParen] ++ choice ++ [TP RParen])) start
         = Some (out start ++ list_byte_of_string "2")).
Proof.
  apply (argument_is_spliced_unparenthesised enabled_table consumer
           (OInt 12) (OCall "sideEffectingCall") " " start).
  - reflexivity.
  - left. reflexivity.
  - left. reflexivity.
  - reflexivity.
Defined.

(** * Further properties of the header *)

(** ** What [#define] does to the table *)

Lemma define_lookup (pol : redef_policy) (x : string) (m : macro)
    (st st' : pp_state) :
  define pol x m st = Some st' -> macros st' !! x = Some m.
Proof.
  unfold define. destruct (macros st !! x) as [m0|] eqn:Hx.
  - case_decide as Hm.
    + intros [= <-]. rewrite Hx, Hm. reflexivity.
    + destruct pol; [discriminate|]. intros [= <-]. apply lookup_insert_eq.
  - intros [= <-]. apply lookup_insert_eq.
Qed.

Lemma define_other (pol : redef_policy) (x y : string) (m : macro)
    (st st' : pp_state) :
  define pol x m st = Some st' -> y <> x -> macros st' !! y = macros st !! y.
Proof.
  unfold define. intros H Hne. destruct (macros st !! x) as [m0|].
  - case_decide; [congruence|]. destruct pol; [discriminate|].
    injection H as <-. apply lookup_insert_ne. congruence.
  - injection H as <-. apply lookup_insert_ne. congruence.
Qed.

Lemma define_redefined (pol : redef_policy) (x : string) (m : macro)
    (st st' : pp_state) :
  define pol x m st = Some st' ->
  redefined st' = redefined st \/ redefined st' = redefined st ++ [x].
Proof.
  unfold define. destruct (macros st !! x) as [m0|].
  - case_decide; [intros [= <-]; auto|]. destruct pol; [discriminate|].
    intros [= <-]. auto.
  - intros [= <-]. auto.
Qed.

Lemma define_reject_iff (x : string) (m : macro) (st : pp_state) :
  is_Some (define Reject x m st)
  <-> macros st !! x = None \/ macros st !! x = Some m.
Proof.
  unfold define. destruct (macros st !! x) as [m0|].
  - case_decide as Hm.
    + split; [intros _; right; congruence | intros _; eexists; reflexivity].
    + split; [intros [? ?]; discriminate | intros [?|?]; congruence].
  - split; [auto | intros _; eexists; reflexivity].
Qed.

Lemma define_last_wins (x : string) (m : macro) (st : pp_state) :
  is_Some (define WarnLastWins x m st).
Proof.
  unfold define. destruct (macros st !! x) as [m0|].
  - case_decide; eexists; reflexivity.
  - eexists; reflexivity.
Qed.

Lemma run_switch_define (pol : redef_policy) (st : pp_state) (b : bool) :
  eval_if (macros st) switch_cond = Some b ->
  run_directive pol switch st
  = define pol "DBG" (if b then DBG_enabled else DBG_disabled) st.
Proof.
  intros Hc. unfold switch. cbn [run_directive]. rewrite Hc.
  destruct b; cbn [run_directive];
    match goal with |- context [define ?p ?x ?m ?s] =>
      destruct (define p x m s); reflexivity end.
Qed.

Lemma eval_if_default (tbl : gmap string macro) :
  tbl !! "AMQP_DEBUG" = Some (ObjMacro [TInt 1]) ->
  eval_if tbl switch_cond = Some true.
Proof.
  intros Hf. rewrite <- flag_tokens_1 in Hf.
  rewrite (eval_if_int _ 1 Hf); [reflexivity | rewrite intmax_max_eq; lia].
Qed.

(** The header, step by step: line 1, line 5, then line 10. *)
Lemma include_steps (pol : redef_policy) (st st' : pp_state) :
  once st = false ->
  include_debug_h pol st = Some st' ->
  exists st1,
    define pol "AMQP_DEBUG" (ObjMacro [TInt 1])
      (PPState (macros st) true (redefined st)) = Some st1
    /\ define pol "DBG" DBG_enabled st1 = Some st'.
Proof.
  intros Ho. unfold include_debug_h. rewrite Ho. unfold debug_h.
  cbn [run_directives run_directive flag_default].
  destruct (define pol "AMQP_DEBUG" (ObjMacro [TInt 1])
              (PPState (macros st) true (redefined st))) as [st1|] eqn:Hd;
    [|discriminate].
  rewrite (run_switch_define pol st1 true)
    by (apply eval_if_default, (define_lookup _ _ _ _ _ Hd)).
  destruct (define pol "DBG" DBG_enabled st1) as [st2|] eqn:Hd2;
    [|discriminate].
  intros [= <-]. exists st1. auto.
Qed.

(** ** Including the header *)

(** X1.  [#pragma once] (line 1): after an inclusion that builds, the header
    is marked as seen, and including it again in the same translation unit,
    under either policy, leaves the macro table and the diagnostics exactly
    as the first inclusion left them, also when the flag or [DBG] is
    redefined in between. *)
Theorem inclusion_happens_once
    (pol pol' : redef_policy) (st st' : pp_state) (x : string) (m : macro) :
  include_debug_h pol st = Some st' ->
  once st' = true
  /\ include_debug_h pol' st' = Some st'
  /\ forall st2,
       define pol' x m st' = Some st2 -> include_debug_h pol' st2 = Some st2.
Proof.
  intros H.
  assert (Ho : once st' = true).
  { unfold include_debug_h in H. destruct (once st) eqn:Ho.
    - injection H as <-. exact Ho.
    - fold (include_debug_h pol st) in H.
      assert (H' : include_debug_h pol st = Some st')
        by (unfold include_debug_h; rewrite Ho; exact H).
      destruct (include_steps pol st st' Ho H') as (st1 & Hd1 & Hd2).
      rewrite (define_once _ _ _ _ _ Hd2), (define_once _ _ _ _ _ Hd1).
      reflexivity. }
  split; [exact Ho|]. split.
  - unfold include_debug_h. rewrite Ho. reflexivity.
  - intros st2 Hd. unfold include_debug_h.
    rewrite (define_once _ _ _ _ _ Hd), Ho. reflexivity.
Qed.

Lemma inclusion_happens_once_witness :
  exists st',
    include_debug_h Reject (initial_pp ∅) = Some st'
    /\ once st' = true
    /\ include_debug_h WarnLastWins st' = Some st'
    /\ forall st2,
         define WarnLastWins "AMQP_DEBUG" (ObjMacro [TInt 0]) st' = Some st2 ->
         include_debug_h WarnLastWins st2 = Some st2.
Proof.
  eexists. split; [apply (include_fresh Reject ∅); reflexivity|].
  apply (inclusion_happens_once Reject WarnLastWins (initial_pp ∅) _
           "AMQP_DEBUG" (ObjMacro [TInt 0])).
  apply (include_fresh Reject ∅); reflexivity.
Defined.

(** X2.  Lines 5 to 13: whatever the translation unit defined before, and
    under either policy, a first inclusion that builds leaves [AMQP_DEBUG]
    defined as [1] and [DBG] defined by line 10: the build is enabled, and
    the [#else] branch of line 12 is never the one taken. *)
Theorem header_never_selects_disabled
    (pol : redef_policy) (st st' : pp_state) :
  once st = false ->
  include_debug_h pol st = Some st' ->
  macros st' !! "AMQP_DEBUG" = Some (ObjMacro [TInt 1])
  /\ macros st' !! "DBG" = Some DBG_enabled
  /\ mode_of (macros st') = Some ENABLED
  /\ mode_of (macros st') <> Some DISABLED.
Proof.
  intros Ho H. destruct (include_steps pol st st' Ho H) as (st1 & Hd1 & Hd2).
  assert (Hdbg : macros st' !! "DBG" = Some DBG_enabled)
    by apply (define_lookup _ _ _ _ _ Hd2).
  split.
  - rewrite (define_other _ _ "AMQP_DEBUG" _ _ _ Hd2) by discriminate.
    apply (define_lookup _ _ _ _ _ Hd1).
  - split; [exact Hdbg|]. unfold mode_of. rewrite Hdbg.
    split; [reflexivity | discriminate].
Qed.

Lemma header_never_selects_disabled_witness :
  exists st',
    include_debug_h WarnLastWins (initial_pp (flag_table (-3))) = Some st'
    /\ macros st' !! "AMQP_DEBUG" = Some (ObjMacro [TInt 1])
    /\ macros st' !! "DBG" = Some DBG_enabled
    /\ mode_of (macros st') = Some ENABLED
    /\ mode_of (macros st') <> Some DISABLED.
Proof.
  destruct (include_last_wins (flag_table (-3)) eq_refl) as (st' & H & _).
  exists st'. split; [exact H|].
  apply (header_never_selects_disabled WarnLastWins
           (initial_pp (flag_table (-3))) st'); [reflexivity | exact H].
Defined.

(** X3.  The header touches two names only: after a first inclusion every
    macro other than [AMQP_DEBUG] and [DBG] is defined, or undefined,
    exactly as before, and the diagnostics it adds name only those two. *)
Theorem header_leaves_other_macros
    (pol : redef_policy) (st st' : pp_state) (x : string) :
  once st = false ->
  include_debug_h pol st = Some st' ->
  x <> "AMQP_DEBUG" ->
  x <> "DBG" ->
  macros st' !! x = macros st !! x
  /\ exists added,
       redefined st' = redefined st ++ added
       /\ forall y, In y added -> y = "AMQP_DEBUG" \/ y = "DBG".
Proof.
  intros Ho H Hx1 Hx2.
  destruct (include_steps pol st st' Ho H) as (st1 & Hd1 & Hd2). split.
  - rewrite (define_other _ _ x _ _ _ Hd2 Hx2).
    rewrite (define_other _ _ x _ _ _ Hd1 Hx1). reflexivity.
  - destruct (define_redefined _ _ _ _ _ Hd1) as [R1 | R1];
      destruct (define_redefined _ _ _ _ _ Hd2) as [R2 | R2];
      cbn [redefined] in R1; rewrite R2, R1.
    + exists []. rewrite app_nil_r. split; [reflexivity|]. intros y [].
    + exists ["DBG"]. split; [reflexivity|]. intros y [<- | []]. auto.
    + exists ["AMQP_DEBUG"]. split; [reflexivity|]. intros y [<- | []]. auto.
    + exists ["AMQP_DEBUG"; "DBG"]. rewrite <- app_assoc.
      split; [reflexivity|]. intros y [<- | [<- | []]]; auto.
Qed.

Lemma header_leaves_other_macros_witness :
  exists st',
    include_debug_h Reject (initial_pp {[ "NDEBUG" := ObjMacro [] ]})
    = Some st'
    /\ macros st' !! "NDEBUG"
       = macros (initial_pp {[ "NDEBUG" := ObjMacro [] ]}) !! "NDEBUG"
    /\ exists added,
         redefined st'
         = redefined (initial_pp {[ "NDEBUG" := ObjMacro [] ]}) ++ added
         /\ forall y, In y added -> y = "AMQP_DEBUG" \/ y = "DBG".
Proof.
  eexists. split; [apply include_fresh; reflexivity|].
  apply (header_leaves_other_macros Reject
           (initial_pp {[ "NDEBUG" := ObjMacro [] ]}) _ "NDEBUG").
  - reflexivity.
  - apply include_fresh; reflexivity.
  - discriminate.
  - discriminate.
Defined.

(** ** The flag at the conditional *)

Lemma parse_flag_empty (d k : N) :
  parse_expr [TInt d; TP AndAnd; TP Ge; TInt k] = None.
Proof. reflexivity. Qed.

(** X5.  Line 9 needs the flag to have a value.  If the flag in force at
    the conditional is defined with an empty replacement list (as by
    [#define AMQP_DEBUG]), the controlling expression is malformed and the
    conditional does not build, under either policy.  If it is defined as a
    function-like macro, its name is not an invocation there and counts as
    0: the disabled mode is selected. *)
Theorem flag_needs_a_value
    (pol : redef_policy) (st1 st2 : pp_state) (ps : list string)
    (body : list token) :
  macros st1 !! "AMQP_DEBUG" = Some (ObjMacro []) ->
  macros st2 !! "AMQP_DEBUG" = Some (FunMacro ps body) ->
  macros st2 !! "DBG" = None ->
  eval_if (macros st1) switch_cond = None
  /\ run_directive pol switch st1 = None
  /\ eval_if (macros st2) switch_cond = Some false
  /\ exists st',
       run_directive pol switch st2 = Some st'
       /\ mode_of (macros st') = Some DISABLED.
Proof.
  intros H1 H2 Hd.
  assert (E1 : eval_if (macros st1) switch_cond = None).
  { unfold eval_if, switch_cond. pp_step. rewrite H1. pp_step. rewrite ?H1.
    cbn [app]. rewrite parse_flag_empty. reflexivity. }
  assert (E2 : eval_if (macros st2) switch_cond = Some false).
  { unfold eval_if, switch_cond. pp_step. rewrite H2. pp_step. rewrite ?H2.
    rewrite parse_flag_absent. pp_step. rewrite ?H2.
    rewrite !decide_True by (rewrite intmax_max_eq; lia). reflexivity. }
  split; [exact E1|]. split.
  - unfold switch. cbn [run_directive]. rewrite E1. reflexivity.
  - split; [exact E2|]. eexists. split.
    + apply (run_switch pol st2 false E2 Hd).
    + apply mode_of_insert_disabled.
Qed.

Lemma flag_needs_a_value_witness :
  eval_if (macros (initial_pp {[ "AMQP_DEBUG" := ObjMacro [] ]})) switch_cond
  = None
  /\ run_directive Reject switch
       (initial_pp {[ "AMQP_DEBUG" := ObjMacro [] ]}) = None
  /\ eval_if
       (macros (initial_pp {[ "AMQP_DEBUG" := FunMacro ["level"] [TInt 1] ]}))
       switch_cond = Some false
  /\ exists st',
       run_directive Reject switch
         (initial_pp {[ "AMQP_DEBUG" := FunMacro ["level"] [TInt 1] ]})
       = Some st'
       /\ mode_of (macros st') = Some DISABLED.
Proof.
  apply (flag_needs_a_value Reject
           (initial_pp {[ "AMQP_DEBUG" := ObjMacro [] ]})
           (initial_pp {[ "AMQP_DEBUG" := FunMacro ["level"] [TInt 1] ]})
           ["level"] [TInt 1]); reflexivity.
Defined.

(** ** The single parameter of [DBG] *)

Lemma split_args_nonempty (ts : list token) :
  forall (d : nat) (cur : list token) (l : list (list token)),
    split_args d cur ts = Some l -> l <> [].
Proof.
  induction ts as [|t ts IH]; intros d cur l H; cbn [split_args] in H.
  - destruct d; [|discriminate]. injection H as <-. discriminate.
  - destruct t as [x | n | x | p]; try (apply (IH _ _ _ H)).
    destruct p; try (apply (IH _ _ _ H)).
    + destruct d; [discriminate|]. apply (IH _ _ _ H).
    + destruct d; [|apply (IH _ _ _ H)].
      destruct (split_args 0 [] ts); [|discriminate].
      injection H as <-. discriminate.
Qed.

Lemma split_args_comma (A : list token) :
  forall (d : nat) (cur x B : list token),
    split_args d cur A = Some [x] ->
    split_args d cur (A ++ TP Comma :: B) = cons x <$> split_args O [] B.
Proof.
  induction A as [|t A IH]; intros d cur x B H;
    cbn [split_args app] in *.
  - destruct d; [|discriminate]. injection H as <-. reflexivity.
  - destruct t as [y | n | y | p]; try (apply (IH _ _ _ _ H)).
    destruct p; try (apply (IH _ _ _ _ H)).
    + destruct d; [discriminate|]. apply (IH _ _ _ _ H).
    + destruct d; [|apply (IH _ _ _ _ H)].
      destruct (split_args 0 [] A) as [l|] eqn:Hl; [|discriminate].
      cbn in H. injection H as _ Hnil.
      exfalso. apply (split_args_nonempty A 0%nat [] l Hl). exact Hnil.
Qed.

(** X6.  [DBG] has one parameter (lines 10 and 12): an argument list with a
    comma outside parentheses, [DBG(A, B)], is not a well-formed invocation
    in either mode, wherever it stands in a statement and whatever follows
    the comma; the disabled build does not let it through. *)
Theorem comma_in_argument_is_rejected
    (tbl : gmap string macro) (m : mode) (A B pre post : list token) :
  mode_of tbl = Some m ->
  one_argument A ->
  invoke tbl "DBG" (A ++ TP Comma :: B) = None
  /\ expand_site tbl (Site pre (A ++ TP Comma :: B) post) = None.
Proof.
  intros Hm HA.
  assert (Hi : invoke tbl "DBG" (A ++ TP Comma :: B) = None).
  { assert (Hl : exists body, tbl !! "DBG" = Some (FunMacro ["X"] body)).
    { destruct m; [apply mode_enabled_lookup in Hm
                  | apply mode_disabled_lookup in Hm]; eexists; exact Hm. }
    destruct Hl as [body Hl]. unfold invoke. rewrite Hl.
    rewrite (split_args_comma A 0%nat [] A B HA).
    destruct (split_args 0 [] B) as [l|] eqn:HB; [|reflexivity].
    cbn [fmap option_fmap option_map mbind option_bind].
    destruct l as [|b l]; [|reflexivity].
    exfalso. apply (split_args_nonempty B 0%nat [] [] HB). reflexivity. }
  split; [exact Hi|]. unfold expand_site. cbn [arg]. rewrite Hi. reflexivity.
Qed.

Lemma comma_in_argument_is_rejected_witness :
  invoke disabled_table "DBG" ([TInt 1] ++ TP Comma :: [TInt 2]) = None
  /\ expand_site disabled_table
       (Site [] ([TInt 1] ++ TP Comma :: [TInt 2]) [TP Semi]) = None.
Proof.
  apply (comma_in_argument_is_rejected disabled_table DISABLED
           [TInt 1] [TInt 2] [] [TP Semi]); reflexivity.
Defined.

(** ** Statements in a row *)

(** X7.  Line 12: in a disabled build any number of emitter statements in a
    row, whatever their arguments, leave the state exactly as it was. *)
Theorem disabled_emissions_do_nothing
    (tbl : gmap string macro) (G : gmap string decl)
    (Vs : list (list token)) (s : state) :
  mode_of tbl = Some DISABLED ->
  Forall one_argument Vs ->
  run_sites G tbl (emit_all Vs) s = Some s.
Proof.
  intros Hm HVs. apply mode_disabled_lookup in Hm.
  induction HVs as [|V Vs HV _ IH]; [reflexivity|].
  cbn [emit_all map run_sites].
  destruct (run_disabled tbl Hm G V s HV) as (_ & _ & ->). exact IH.
Qed.

Lemma disabled_emissions_do_nothing_witness :
  run_sites consumer disabled_table
    (emit_all [operand_tokens (OCall "sideEffectingCall");
               chained (OVar "counter") ", " (OCall "sideEffectingCall");
               []]) broken
  = Some broken.
Proof.
  apply (disabled_emissions_do_nothing disabled_table consumer).
  - reflexivity.
  - repeat constructor.
Defined.

(** ** What the two builds do to the same statement *)

(** X10.  Lines 10 and 12 on an argument that calls a function: the enabled
    build makes the call exactly once, also when the stream has failed and
    nothing can be written: the call is logged once and the variables are
    what the function leaves.  The disabled build does not make the call.
    The two builds therefore leave different variables whenever the
    function changes one. *)
Theorem call_is_made_when_enabled_only
    (ten tdis : gmap string macro) (G : gmap string decl) (f : string)
    (body : gmap string Z -> Z * gmap string Z) (s : state) :
  mode_of ten = Some ENABLED ->
  mode_of tdis = Some DISABLED ->
  G !! f = Some (DFun body) ->
  run_site G tdis (DBG_stmt (operand_tokens (OCall f))) s = Some s
  /\ run_site G ten (DBG_stmt (operand_tokens (OCall f))) s
     = Some (State (out s ++ (if failed s then []
                              else render_int (fst (body (store s)))))
                   (failed s) (snd (body (store s))) (calls s ++ [f])).
Proof.
  intros Hen Hdis Hf.
  apply mode_enabled_lookup in Hen. apply mode_disabled_lookup in Hdis.
  split;
    [apply (run_disabled tdis Hdis G _ s (one_argument_operand (OCall f)))|].
  assert (Hs : streamable G (operand_expr (OCall f)))
    by (left; cbn [operand_expr type_of]; rewrite Hf; reflexivity).
  rewrite (run_enabled_operand ten Hen G (OCall f) s
             (VInt (fst (body (store s))))
             (State (out s) (failed s) (snd (body (store s))) (calls s ++ [f]))
             (render_int (fst (body (store s)))) Hs).
  - f_equal. unfold write. cbn [failed out store calls].
    destruct (failed s); [rewrite app_nil_r|]; reflexivity.
  - cbn [operand_expr eval]. rewrite Hf. reflexivity.
  - reflexivity.
Qed.

Lemma call_is_made_when_enabled_only_witness :
  run_site consumer disabled_table
    (DBG_stmt (operand_tokens (OCall "sideEffectingCall"))) broken
  = Some broken
  /\ run_site consumer enabled_table
       (DBG_stmt (operand_tokens (OCall "sideEffectingCall"))) broken
     = Some (State (out broken
                    ++ (if failed broken then []
                        else render_int
                               (fst (sideEffectingCall (store broken)))))
                   (failed broken) (snd (sideEffectingCall (store broken)))
                   (calls broken ++ ["sideEffectingCall"])).
Proof.
  apply (call_is_made_when_enabled_only enabled_table disabled_table consumer
           "sideEffectingCall" sideEffectingCall broken); reflexivity.
Defined.

(** X11.  Lines 10 and 12 on an argument that cannot be streamed: a
    statement [DBG(V);] whose direct form [std::cout << V;] does not
    compile is refused by the enabled build and accepted by the disabled
    one, where it is the null statement and runs without effect.  A
    disabled build does not check what the emitter is given. *)
Theorem unstreamable_argument_builds_when_disabled_only
    (ten tdis : gmap string macro) (G : gmap string decl) (V : list token)
    (s : state) :
  mode_of ten = Some ENABLED ->
  mode_of tdis = Some DISABLED ->
  one_argument V ->
  compile G (stream_stmt V) = None ->
  compile_site G ten (DBG_stmt V) = None
  /\ run_site G ten (DBG_stmt V) s = None
  /\ compile_site G tdis (DBG_stmt V) = Some SNull
  /\ run_site G tdis (DBG_stmt V) s = Some s.
Proof.
  intros Hen Hdis HV Hc.
  apply mode_enabled_lookup in Hen. apply mode_disabled_lookup in Hdis.
  split; [rewrite (compile_enabled ten Hen G V HV); exact Hc|].
  split.
  - rewrite (run_enabled ten Hen G V s HV). unfold run_tokens.
    rewrite Hc. reflexivity.
  - destruct (run_disabled tdis Hdis G V s HV) as (_ & H1 & H2). auto.
Qed.

Lemma unstreamable_argument_builds_when_disabled_only_witness :
  compile_site consumer enabled_table
    (DBG_stmt (operand_tokens (OCall "counter"))) = None
  /\ run_site consumer enabled_table
       (DBG_stmt (operand_tokens (OCall "counter"))) start = None
  /\ compile_site consumer disabled_table
       (DBG_stmt (operand_tokens (OCall "counter"))) = Some SNull
  /\ run_site consumer disabled_table
       (DBG_stmt (operand_tokens (OCall "counter"))) start = Some start.
Proof.
  apply (unstreamable_argument_builds_when_disabled_only enabled_table
           disabled_table consumer (operand_tokens (OCall "counter")) start);
    reflexivity.
Defined.

(** * The emitter used as a value *)

Lemma compile_argument_enabled (G : gmap string decl) (f : string)
    (o : operand) :
  compile G ([TId f; TP LParen]
             ++ ([TId "std"; TP Scope; TId "cout"; TP Shl] ++ operand_tokens o)
             ++ [TP RParen; TP Semi]) = None.
Proof. destruct o; reflexivity. Qed.

Lemma compile_argument_disabled (G : gmap string decl) (f : string)
    (body : gmap string Z -> Z * gmap string Z) :
  G !! f = Some (DFun body) ->
  compile G ([TId f; TP LParen] ++ [TP RParen; TP Semi])
  = Some (SExpr (ECall f)).
Proof.
  intros Hf. unfold compile.
  rewrite (eq_refl : parse_stmt ([TId f; TP LParen] ++ [TP RParen; TP Semi])
                     = Some (SExpr (ECall f))).
  cbn [mbind option_bind well_typed type_of]. rewrite Hf. reflexivity.
Qed.

(** C10 as stated fails.  The statement [sideEffectingCall(DBG("a"));] uses
    [DBG("a")] as a value, the argument of a call.  The function takes no
    argument, so the enabled build, where the statement is
    [sideEffectingCall(std::cout << "a");], does not compile, and the
    disabled build, where it is [sideEffectingCall();], does: a statement
    that uses [DBG(X)] as a value can compile in the disabled
    configuration only. *)
Lemma value_site_that_needs_the_disabled_build :
  compile_site consumer disabled_table
    (as_argument "sideEffectingCall" [TStr "a"])
  = Some (SExpr (ECall "sideEffectingCall"))
  /\ compile_site consumer enabled_table
       (as_argument "sideEffectingCall" [TStr "a"]) = None
  /\ ~ (is_Some (compile_site consumer enabled_table
                   (as_argument "sideEffectingCall" [TStr "a"]))
        /\ compile_site consumer disabled_table
             (as_argument "sideEffectingCall" [TStr "a"]) = None).
Proof.
  split; [vm_compute; reflexivity|]. split; [vm_compute; reflexivity|].
  intros [_ H]. vm_compute in H. discriminate H.
Qed.

(** C10, amended.  In an enabled build [DBG(X)] is an expression: it parses
    as the insertion [std::cout << X], has the type of the stream and
    evaluates to the stream.  In a disabled build [DBG(X)] is replaced by no
    token, [DBG(X);] is the null statement, and a statement around [DBG(X)]
    is compiled as the tokens before and after it.  So the two modes are not
    interchangeable: a statement that needs an operand where [DBG(X)] stands
    (a further insertion, a parenthesised expression, the condition of [?:],
    an operand of [&&]) compiles in the enabled build only, and the call
    [f(DBG(X));] of a function without parameters compiles in the disabled
    build only. *)
Theorem modes_are_not_interchangeable
    (ten tdis : gmap string macro) (G : gmap string decl) (o : operand)
    (k : value_context) (f : string)
    (body : gmap string Z -> Z * gmap string Z) (pre post : list token)
    (s : state) :
  mode_of ten = Some ENABLED ->
  mode_of tdis = Some DISABLED ->
  streamable G (operand_expr o) ->
  G !! f = Some (DFun body) ->
  (exists e s',
     expand_site ten (Site [] (operand_tokens o) []) ≫= parse_expr = Some e
     /\ type_of G e = Some TyStream
     /\ eval G e s = Some (VStream, s'))
  /\ (expand_site tdis (Site [] (operand_tokens o) []) = Some []
      /\ compile_site G tdis (DBG_stmt (operand_tokens o)) = Some SNull
      /\ compile_site G tdis (Site pre (operand_tokens o) post)
         = compile G (pre ++ post))
  /\ (is_Some (compile_site G ten (fill k (operand_tokens o)))
      /\ compile_site G tdis (fill k (operand_tokens o)) = None)
  /\ (compile_site G ten (as_argument f (operand_tokens o)) = None
      /\ compile_site G tdis (as_argument f (operand_tokens o))
         = Some (SExpr (ECall f))).
Proof.
  intros Hen Hdis Hs Hf.
  apply mode_enabled_lookup in Hen. apply mode_disabled_lookup in Hdis.
  split; [|split; [|split]].
  - destruct (eval_operand G o s Hs) as (v & s1 & bs & He & Hr & _ & _).
    exists (EShl ECout (operand_expr o)), (write bs s1).
    split.
    + unfold expand_site. cbn [arg before after].
      rewrite (invoke_enabled ten Hen _ (one_argument_operand o)).
      cbn [mbind option_bind app]. rewrite app_nil_r.
      apply parse_enabled_value.
    + split; [apply type_of_stream_operand, Hs|].
      cbn [eval]. rewrite He, Hr. reflexivity.
  - split; [|split].
    + apply (expand_disabled tdis Hdis (Site [] (operand_tokens o) [])
               (one_argument_operand o)).
    + apply (run_disabled tdis Hdis G _ s (one_argument_operand o)).
    + unfold compile_site.
      rewrite (expand_disabled tdis Hdis (Site pre (operand_tokens o) post)
                 (one_argument_operand o)). reflexivity.
  - split; [apply compile_fill_enabled; assumption|].
    apply (compile_fill_disabled tdis Hdis).
  - split.
    + unfold compile_site, expand_site, as_argument. cbn [arg before after].
      rewrite (invoke_enabled ten Hen _ (one_argument_operand o)).
      cbn [mbind option_bind]. apply compile_argument_enabled.
    + unfold compile_site.
      rewrite (expand_disabled tdis Hdis (as_argument f (operand_tokens o))
                 (one_argument_operand o)).
      cbn [mbind option_bind as_argument before after].
      apply (compile_argument_disabled G f body Hf).
Qed.

Lemma modes_are_not_interchangeable_witness :
  (exists e s',
     expand_site enabled_table (Site [] (operand_tokens (OStr "a")) [])
       ≫= parse_expr = Some e
     /\ type_of consumer e = Some TyStream
     /\ eval consumer e start = Some (VStream, s'))
  /\ (expand_site disabled_table (Site [] (operand_tokens (OStr "a")) [])
      = Some []
      /\ compile_site consumer disabled_table
           (DBG_stmt (operand_tokens (OStr "a"))) = Some SNull
      /\ compile_site consumer disabled_table
           (Site [TId "counter"; TP AndAnd] (operand_tokens (OStr "a"))
                 [TP Semi])
         = compile consumer ([TId "counter"; TP AndAnd] ++ [TP Semi]))
  /\ (is_Some (compile_site consumer enabled_table
                 (fill (CInsert "b") (operand_tokens (OStr "a"))))
      /\ compile_site consumer disabled_table
           (fill (CInsert "b") (operand_tokens (OStr "a"))) = None)
  /\ (compile_site consumer enabled_table
        (as_argument "sideEffectingCall" (operand_tokens (OStr "a"))) = None
      /\ compile_site consumer disabled_table
           (as_argument "sideEffectingCall" (operand_tokens (OStr "a")))
         = Some (SExpr (ECall "sideEffectingCall"))).
Proof.
  apply (modes_are_not_interchangeable enabled_table disabled_table consumer
           (OStr "a") (CInsert "b") "sideEffectingCall" sideEffectingCall
           [TId "counter"; TP AndAnd] [TP Semi] start).
  - reflexivity.
  - reflexivity.
  - right. reflexivity.
  - reflexivity.
Defined.

(** * The state of the stream *)

(** ** Formatted insertion *)

Lemma pad_none (t : list byte) : pad O t = t.
Proof. reflexivity. Qed.

Lemma put_text_plain (t : list byte) (r : rstate) :
  plain r ->
  put_text t r
  = Done (set_core r (State (out (core r) ++ t) false
                            (store (core r)) (calls (core r))) O).
Proof.
  intros (Hg & Hw & Ha). unfold put_text. rewrite Hg, Hw, pad_none.
  rewrite (proj2 (Nat.leb_le _ _) (Ha (out (core r)) t)). reflexivity.
Qed.

Lemma plain_set_core (r : rstate) (o : list byte) (m : gmap string Z)
    (c : list string) :
  plain r -> plain (set_core r (State o false m c) O).
Proof. intros (_ & _ & Ha). repeat split. exact Ha. Qed.

(** Whatever happens to an insertion, it happens to the stream: the
    variables, the call log and the exception mask are not touched, and
    without the mask nothing is raised. *)
Lemma put_text_frame (t : list byte) (r : rstate) :
  exists r',
    (put_text t r = Done r' \/ (put_text t r = Raised r' /\ fthrows r = true))
    /\ store (core r') = store (core r)
    /\ calls (core r') = calls (core r)
    /\ fthrows r' = fthrows r.
Proof.
  unfold put_text, signal. destruct (failed (core r)).
  - exists r. destruct (fthrows r) eqn:Ht; auto.
  - match goal with |- context [if ?b then _ else _] => destruct b end.
    + eexists. split; [left; reflexivity|]. auto.
    + cbn [set_core fthrows]. destruct (fthrows r) eqn:Ht;
        eexists; (split; [first [left; reflexivity | right; split; reflexivity]
                         |]); cbn; auto.
Qed.

(** ** Statements on the stream *)

Lemma lookup_erase (G : gmap string rdecl) (x : string) :
  (erase <$> G) !! x = erase <$> (G !! x).
Proof. apply lookup_fmap. Qed.

Section Stream.

Context (G : gmap string rdecl) (tbl : gmap string macro).

Lemma rrun_disabled (V : list token) (r : rstate) :
  tbl !! "DBG" = Some DBG_disabled ->
  one_argument V ->
  rrun_site G tbl (DBG_stmt V) r = Done r.
Proof.
  intros Hdis HV. unfold rrun_site.
  rewrite (expand_disabled tbl Hdis (DBG_stmt V) HV). reflexivity.
Qed.

Lemma rrun_enabled (V : list token) (r : rstate) :
  tbl !! "DBG" = Some DBG_enabled ->
  one_argument V ->
  rrun_site G tbl (DBG_stmt V) r = rrun_tokens G (stream_stmt V) r.
Proof.
  intros Hen HV. unfold rrun_site. rewrite (expand_enabled tbl Hen V HV).
  reflexivity.
Qed.

Lemma rrun_stream_operand (o : operand) (r : rstate) (v : value)
    (r1 : rstate) (t : list byte) :
  streamable (erase <$> G) (operand_expr o) ->
  reval G (operand_expr o) r = Done (v, r1) ->
  render v = Some t ->
  rrun_tokens G (stream_stmt (operand_tokens o)) r = put_text t r1.
Proof.
  intros Hs He Hr. unfold rrun_tokens, compile.
  rewrite parse_stream_operand. cbn [mbind option_bind well_typed].
  rewrite (type_of_stream_operand _ o Hs).
  rewrite bool_decide_eq_true_2 by (eexists; reflexivity).
  cbn [rexec reval andthen fst snd]. rewrite He.
  cbn [andthen fst snd]. rewrite Hr.
  destruct (put_text t r1); reflexivity.
Qed.

Lemma reval_pure (o : operand) (r : rstate) :
  pure o = true ->
  streamable (erase <$> G) (operand_expr o) ->
  exists v t,
    render v = Some t
    /\ forall r', store (core r') = store (core r) ->
                  reval G (operand_expr o) r' = Done (v, r').
Proof.
  intros Hp Hs. destruct o as [n | x | x | f |]; cbn [operand_expr] in *.
  - exists (VInt (Z.of_N n)), (render_int (Z.of_N n)).
    split; [reflexivity|]. intros r' _. reflexivity.
  - exists (VStr x), (c_string x).
    split; [reflexivity|]. intros r' _. reflexivity.
  - assert (Hx : G !! x = Some RVar).
    { destruct Hs as [H | H]; cbn [type_of] in H; rewrite lookup_erase in H;
        destruct (G !! x) as [[|body]|]; cbn in H; try discriminate;
        reflexivity. }
    exists (VInt (default 0 (store (core r) !! x))),
           (render_int (default 0 (store (core r) !! x))).
    split; [reflexivity|]. intros r' Hst. cbn [reval].
    rewrite Hx, Hst. reflexivity.
  - discriminate.
  - destruct Hs as [H | H]; discriminate.
Qed.

End Stream.

(** ** Two statements in succession *)

(** C7 as stated fails.  After [std::cout.width(4)] the statement [DBG(5);]
    writes the padded text, three spaces and [5], and resets the width, so
    the pair [DBG(5); DBG(5);] writes three spaces, [5] and [5]: not the
    single output twice.  The width of the stream is state that the first
    statement uses up. *)
Lemma pending_width_pads_the_first_only :
  written id (rrun_site rconsumer enabled_table (DBG_stmt [TInt 5]) width4)
  = Some (list_byte_of_string "   5")
  /\ written id (rrun_sites rconsumer enabled_table
                   [DBG_stmt [TInt 5]; DBG_stmt [TInt 5]] width4)
     = Some (list_byte_of_string "   55")
  /\ list_byte_of_string "   55"
     <> list_byte_of_string "   5" ++ list_byte_of_string "   5".
Proof.
  split; [vm_compute; reflexivity|]. split; [vm_compute; reflexivity|].
  vm_compute. discriminate.
Qed.

(** C7, amended.  In an enabled build, on a good stream with no pending
    field width whose writes succeed, two statements [DBG(o); DBG(o);] with
    the same value [o] (a literal or a variable) write what one of them
    writes, twice: if the single statement appends [w] to the output, the
    pair appends [w ++ w], and leaves the stream as plain as it was.  The
    pair is the single statement run again from the state the first one
    left. *)
Theorem emitting_twice_on_a_plain_stream
    (tbl : gmap string macro) (G : gmap string rdecl) (o : operand)
    (r : rstate) :
  mode_of tbl = Some ENABLED ->
  streamable (erase <$> G) (operand_expr o) ->
  pure o = true ->
  plain r ->
  rrun_sites G tbl [DBG_stmt (operand_tokens o); DBG_stmt (operand_tokens o)]
    r
  = andthen (rrun_site G tbl (DBG_stmt (operand_tokens o)) r)
            (rrun_site G tbl (DBG_stmt (operand_tokens o)))
  /\ exists w r1 r2,
       rrun_site G tbl (DBG_stmt (operand_tokens o)) r = Done r1
       /\ out (core r1) = out (core r) ++ w
       /\ rrun_sites G tbl
            [DBG_stmt (operand_tokens o); DBG_stmt (operand_tokens o)] r
          = Done r2
       /\ out (core r2) = out (core r) ++ w ++ w
       /\ plain r2.
Proof.
  intros Hm Hs Hp Hpl. apply mode_enabled_lookup in Hm. split.
  - cbn [rrun_sites].
    destruct (rrun_site G tbl (DBG_stmt (operand_tokens o)) r) as [r1| |];
      cbn [andthen]; try reflexivity.
    destruct (rrun_site G tbl (DBG_stmt (operand_tokens o)) r1);
      reflexivity.
  - destruct (reval_pure G o r Hp Hs) as (v & t & Hr & Hev).
    assert (Hone : forall r0,
               plain r0 -> store (core r0) = store (core r) ->
               rrun_site G tbl (DBG_stmt (operand_tokens o)) r0
               = Done (set_core r0 (State (out (core r0) ++ t) false
                                          (store (core r0)) (calls (core r0)))
                                O)).
    { intros r0 Hpl0 Hst.
      rewrite (rrun_enabled G tbl _ r0 Hm (one_argument_operand o)).
      rewrite (rrun_stream_operand G o r0 v r0 t Hs (Hev r0 Hst) Hr).
      apply put_text_plain, Hpl0. }
    pose proof (Hone r Hpl eq_refl) as H1.
    set (r1 := set_core r (State (out (core r) ++ t) false
                                 (store (core r)) (calls (core r))) O) in *.
    assert (Hpl1 : plain r1) by apply (plain_set_core r _ _ _ Hpl).
    pose proof (Hone r1 Hpl1 eq_refl) as H2.
    exists t, r1, (set_core r1 (State (out (core r1) ++ t) false
                                      (store (core r1)) (calls (core r1))) O).
    split; [exact H1|]. split; [reflexivity|].
    split; [cbn [rrun_sites]; rewrite H1; cbn [andthen]; rewrite H2;
            reflexivity|].
    split; [cbn; rewrite <- app_assoc; reflexivity|].
    apply (plain_set_core r1 _ _ _ Hpl1).
Qed.

Lemma emitting_twice_on_a_plain_stream_witness :
  rrun_sites rconsumer enabled_table
    [DBG_stmt (operand_tokens (OVar "counter"));
     DBG_stmt (operand_tokens (OVar "counter"))] fresh_stream
  = andthen (rrun_site rconsumer enabled_table
               (DBG_stmt (operand_tokens (OVar "counter"))) fresh_stream)
            (rrun_site rconsumer enabled_table
               (DBG_stmt (operand_tokens (OVar "counter"))))
  /\ exists w r1 r2,
       rrun_site rconsumer enabled_table
         (DBG_stmt (operand_tokens (OVar "counter"))) fresh_stream = Done r1
       /\ out (core r1) = out (core fresh_stream) ++ w
       /\ rrun_sites rconsumer enabled_table
            [DBG_stmt (operand_tokens (OVar "counter"));
             DBG_stmt (operand_tokens (OVar "counter"))] fresh_stream
          = Done r2
       /\ out (core r2) = out (core fresh_stream) ++ w ++ w
       /\ plain r2.
Proof.
  apply (emitting_twice_on_a_plain_stream enabled_table rconsumer
           (OVar "counter") fresh_stream).
  - reflexivity.
  - left. vm_compute. reflexivity.
  - reflexivity.
  - repeat split. intros h t. unfold fresh_stream, takes_all. simpl. lia.
Defined.

(** ** Failures at run time *)

Lemma put_text_quiet (t : list byte) (r : rstate) :
  fthrows r = false ->
  exists r', put_text t r = Done r' /\ fthrows r' = false.
Proof.
  intros Hq. destruct (put_text_frame t r) as (r' & [H | [_ H]] & _ & _ & Ht).
  - exists r'. split; [exact H | congruence].
  - congruence.
Qed.

Ltac typed H :=
  repeat match type of H with
         | context [type_of ?G ?e] =>
             let t := fresh "t" in
             let E := fresh "E" in
             destruct (type_of G e) as [t|] eqn:E;
             [try destruct t|]; try discriminate H
         end.

Ltac step IH r :=
  let v := fresh "v" in
  let r' := fresh "r" in
  let Hev := fresh "Hev" in
  let Hty := fresh "Hty" in
  let Hq := fresh "Hq" in
  destruct (IH _ r eq_refl ltac:(assumption)) as (v & r' & Hev & Hty & Hq);
  rewrite Hev; cbn [andthen fst snd]; destruct v; try contradiction Hty.

Ltac finish := eexists _, _; split; [reflexivity|]; split; [exact I | assumption].

(** With the exception mask clear and no function that raises, a
    well-typed expression evaluates to a value of its type, whatever the
    device does. *)
Lemma reval_sound (G : gmap string rdecl) (e : expr) :
  calm G ->
  forall (t : ty) (r : rstate),
    type_of (erase <$> G) e = Some t ->
    fthrows r = false ->
    exists v r',
      reval G e r = Done (v, r') /\ has_type v t /\ fthrows r' = false.
Proof.
  intros Hcalm.
  induction e as [n | x | x | f | | a IHa | a IHa b IHb | a IHa b IHb
                 | a IHa b IHb | c IHc a IHa b IHb];
    intros t r H Hq; cbn [type_of] in H; cbn [reval].
  - case_decide; [|discriminate]. inversion H; subst. finish.
  - inversion H; subst. finish.
  - rewrite lookup_erase in H.
    destruct (G !! x) as [[|body]|]; cbn in H; try discriminate.
    inversion H; subst. finish.
  - rewrite lookup_erase in H.
    destruct (G !! f) as [[|body]|] eqn:Hf; cbn in H; try discriminate.
    inversion H; subst.
    destruct (Hcalm f body (store (core r)) Hf) as (z & m' & ->). finish.
  - inversion H; subst. finish.
  - typed H. inversion H; subst. step IHa r. finish.
  - typed H; inversion H; subst; step IHa r; step IHb r0; cbn [render];
      match goal with |- context [put_text ?t ?r1] =>
        destruct (put_text_quiet t r1 ltac:(assumption)) as (r2 & -> & Hq2)
      end; cbn [andthen]; finish.
  - typed H. inversion H; subst. step IHa r. step IHb r0. finish.
  - destruct (type_of (erase <$> G) a) as [ta|] eqn:Ea; [|discriminate].
    destruct (type_of (erase <$> G) b) as [tb|] eqn:Eb; [|discriminate].
    inversion H; subst.
    destruct (IHa _ r eq_refl Hq) as (va & r1 & Hev & _ & Hq1). rewrite Hev.
    cbn [andthen fst snd]. destruct (truthy (core r1) va).
    + destruct (IHb _ r1 eq_refl Hq1) as (vb & r2 & Hev2 & _ & Hq2).
      rewrite Hev2. cbn [andthen fst snd]. finish.
    + finish.
  - destruct (type_of (erase <$> G) c) as [tc|] eqn:Ec; [|discriminate].
    destruct (type_of (erase <$> G) a) as [ta|] eqn:Ea; [|discriminate].
    destruct (type_of (erase <$> G) b) as [tb|] eqn:Eb; [|discriminate].
    case_decide; [|discriminate]. inversion H; subst.
    destruct (IHc _ r eq_refl Hq) as (vc & r1 & Hev & _ & Hq1). rewrite Hev.
    cbn [andthen fst snd]. destruct (truthy (core r1) vc).
    + apply (IHa _ r1 eq_refl Hq1).
    + apply (IHb _ r1 eq_refl Hq1).
Qed.

(** Functions that return, as those of the evaluation above do, are calm. *)
Lemma calm_lift (G : gmap string decl) : calm (lift <$> G).
Proof.
  intros f body m Hf. rewrite lookup_fmap in Hf.
  destruct (G !! f) as [[|b]|]; cbn in Hf; try discriminate.
  injection Hf as <-. eexists _, _. reflexivity.
Qed.

Lemma compiled_runs_quietly (G : gmap string rdecl) (ts : list token)
    (st : stmt) (r : rstate) :
  calm G ->
  fthrows r = false ->
  compile (erase <$> G) ts = Some st ->
  exists r', rrun_tokens G ts r = Done r' /\ fthrows r' = false.
Proof.
  intros Hcalm Hq Hc. unfold rrun_tokens. rewrite Hc.
  unfold compile in Hc.
  destruct (parse_stmt ts) as [st0|]; [|discriminate].
  cbn [mbind option_bind] in Hc.
  destruct (well_typed (erase <$> G) st0) eqn:Hw; [|discriminate].
  injection Hc as <-. destruct st0 as [|e]; cbn [rexec].
  - exists r. auto.
  - cbn [well_typed] in Hw. apply bool_decide_eq_true_1 in Hw.
    destruct Hw as [t Ht].
    destruct (reval_sound G e Hcalm t r Ht Hq) as (v & r' & Hev & _ & Hq').
    exists r'. rewrite Hev. auto.
Qed.

(** C8 as stated fails.  With [std::cout.exceptions(std::ios::badbit)] set
    and a device that takes no byte, the enabled [DBG("x");] raises.  With
    the mask clear the same failure is silent: the statement ends and the
    failure flag is set.  And an argument that raises, [DBG(mayThrow());],
    raises out of the enabled emitter on a sound stream. *)
Lemma emission_can_raise :
  (exists r',
     rrun_site rconsumer enabled_table (DBG_stmt [TStr "x"]) closed_throwing
     = Raised r')
  /\ (exists r',
        rrun_site rconsumer enabled_table (DBG_stmt [TStr "x"]) closed
        = Done r'
        /\ failed (core r') = true)
  /\ (exists r',
        rrun_site raising_consumer enabled_table
          (DBG_stmt (operand_tokens (OCall "mayThrow"))) fresh_stream
        = Raised r').
Proof.
  split; [|split].
  - eexists. vm_compute. reflexivity.
  - eexists. split; vm_compute; reflexivity.
  - eexists. vm_compute. reflexivity.
Qed.

(** C8, amended.  Disabled, [DBG(V);] does nothing, from every state.
    Enabled, [DBG(V);] runs exactly as the insertion [std::cout << V;] runs,
    from every state: the emitter adds no check, report or exception of its
    own, and [DBG(std::cout);], which cannot be streamed, does not compile.
    When the exception mask of the stream is clear and no function of the
    translation unit raises, every call site that compiles, in either mode,
    runs to its end whatever the device does; a failed write then only sets
    the failure flag of the stream. *)
Theorem emission_fails_only_as_the_insertion_does
    (tbl : gmap string macro) (m : mode) (G : gmap string rdecl) (c : site)
    (st : stmt) (V : list token) (r : rstate) :
  mode_of tbl = Some m ->
  compile_site (erase <$> G) tbl c = Some st ->
  one_argument V ->
  calm G ->
  fthrows r = false ->
  (exists r', rrun_site G tbl c r = Done r' /\ fthrows r' = false)
  /\ match m with
     | DISABLED => forall r0, rrun_site G tbl (DBG_stmt V) r0 = Done r0
     | ENABLED =>
         (forall r0,
            rrun_site G tbl (DBG_stmt V) r0
            = rrun_tokens G (stream_stmt V) r0)
         /\ compile_site (erase <$> G) tbl (DBG_stmt (operand_tokens OCout))
            = None
     end.
Proof.
  intros Hm Hc HV Hcalm Hq. split.
  - unfold compile_site in Hc. unfold rrun_site.
    destruct (expand_site tbl c) as [ts|]; [|discriminate].
    cbn [mbind option_bind] in Hc.
    apply (compiled_runs_quietly G ts st r Hcalm Hq Hc).
  - destruct m.
    + apply mode_enabled_lookup in Hm. split.
      * intros r0. apply (rrun_enabled G tbl V r0 Hm HV).
      * rewrite (compile_enabled tbl Hm _ _ (one_argument_operand OCout)).
        apply stream_of_stream_rejected.
    + apply mode_disabled_lookup in Hm. intros r0.
      apply (rrun_disabled G tbl V r0 Hm HV).
Qed.

Lemma emission_fails_only_as_the_insertion_does_witness :
  (exists r',
     rrun_site rconsumer enabled_table
       (DBG_stmt (operand_tokens (OCall "sideEffectingCall"))) closed
     = Done r'
     /\ fthrows r' = false)
  /\ ((forall r0,
         rrun_site rconsumer enabled_table (DBG_stmt [TStr "x"]) r0
         = rrun_tokens rconsumer (stream_stmt [TStr "x"]) r0)
      /\ compile_site (erase <$> rconsumer) enabled_table
           (DBG_stmt (operand_tokens OCout)) = None).
Proof.
  apply (emission_fails_only_as_the_insertion_does enabled_table ENABLED
           rconsumer (DBG_stmt (operand_tokens (OCall "sideEffectingCall")))
           (SExpr (EShl ECout (ECall "sideEffectingCall"))) [TStr "x"] closed).
  - reflexivity.
  - vm_compute. reflexivity.
  - reflexivity.
  - apply calm_lift.
  - reflexivity.
Defined.

(** ** Statements in a row, on the stream *)

Lemma set_core_plain_id (r : rstate) :
  plain r ->
  set_core r (State (out (core r)) false (store (core r)) (calls (core r))) O
  = r.
Proof.
  destruct r as [[o f m c] w th d]. intros (Hg & Hw & _).
  cbn in Hg, Hw. subst. reflexivity.
Qed.

(** X8.  Line 10: in an enabled build, on a good stream with no pending
    field width whose writes succeed, the statements
    [DBG("x1"); ... DBG("xn");] write the texts of the literals one after
    the other, with nothing between them or after them; the width stays
    zero and the failure flag, the exception mask, the device, the
    variables and the call log are as before. *)
Theorem enabled_emissions_concatenate
    (tbl : gmap string macro) (G : gmap string rdecl) (xs : list string)
    (r : rstate) :
  mode_of tbl = Some ENABLED ->
  plain r ->
  rrun_sites G tbl (emit_strings xs) r
  = Done (set_core r (State (out (core r) ++ concat (map c_string xs)) false
                            (store (core r)) (calls (core r))) O).
Proof.
  intros Hm. apply mode_enabled_lookup in Hm. revert r.
  induction xs as [|x xs IH]; intros r Hpl;
    cbn [emit_strings map rrun_sites concat].
  - rewrite app_nil_r, (set_core_plain_id r Hpl). reflexivity.
  - change [TStr x] with (operand_tokens (OStr x)).
    rewrite (rrun_enabled G tbl _ r Hm (one_argument_operand (OStr x))).
    rewrite (rrun_stream_operand G (OStr x) r (VStr x) r (c_string x)
               (streamable_string _ x) eq_refl eq_refl).
    rewrite (put_text_plain _ r Hpl). cbn [andthen].
    fold (emit_strings xs). rewrite IH by apply (plain_set_core r _ _ _ Hpl).
    cbn [set_core core out store calls fthrows fdevice].
    rewrite <- app_assoc. reflexivity.
Qed.

Lemma enabled_emissions_concatenate_witness :
  rrun_sites rconsumer enabled_table
    (emit_strings ["frame "; "decoded"; ""]) fresh_stream
  = Done (set_core fresh_stream
            (State (out (core fresh_stream)
                    ++ concat (map c_string ["frame "; "decoded"; ""]))
                   false (store (core fresh_stream))
                   (calls (core fresh_stream))) O).
Proof.
  apply (enabled_emissions_concatenate enabled_table rconsumer).
  - reflexivity.
  - repeat split. intros h t. unfold fresh_stream, takes_all. simpl. lia.
Defined.

(** X9.  Lines 10 and 12 on an argument without side effect (a literal or a
    variable).  The disabled build leaves the whole state as it was.  The
    enabled build can change the stream only, that is the output, the
    pending width and the failure flag: whether the statement ends or an
    exception leaves it, the variables, the call log and the exception mask
    are as before, and an exception leaves it only if the mask is set. *)
Theorem pure_argument_touches_the_stream_only
    (ten tdis : gmap string macro) (G : gmap string rdecl) (o : operand)
    (r : rstate) :
  mode_of ten = Some ENABLED ->
  mode_of tdis = Some DISABLED ->
  streamable (erase <$> G) (operand_expr o) ->
  pure o = true ->
  rrun_site G tdis (DBG_stmt (operand_tokens o)) r = Done r
  /\ exists r',
       (rrun_site G ten (DBG_stmt (operand_tokens o)) r = Done r'
        \/ (rrun_site G ten (DBG_stmt (operand_tokens o)) r = Raised r'
            /\ fthrows r = true))
       /\ store (core r') = store (core r)
       /\ calls (core r') = calls (core r)
       /\ fthrows r' = fthrows r.
Proof.
  intros Hen Hdis Hs Hp.
  apply mode_enabled_lookup in Hen. apply mode_disabled_lookup in Hdis.
  split; [apply (rrun_disabled G tdis _ r Hdis (one_argument_operand o))|].
  destruct (reval_pure G o r Hp Hs) as (v & t & Hr & Hev).
  rewrite (rrun_enabled G ten _ r Hen (one_argument_operand o)).
  rewrite (rrun_stream_operand G o r v r t Hs (Hev r eq_refl) Hr).
  apply put_text_frame.
Qed.

Lemma pure_argument_touches_the_stream_only_witness :
  rrun_site rconsumer disabled_table
    (DBG_stmt (operand_tokens (OVar "counter"))) width4 = Done width4
  /\ exists r',
       (rrun_site rconsumer enabled_table
          (DBG_stmt (operand_tokens (OVar "counter"))) width4 = Done r'
        \/ (rrun_site rconsumer enabled_table
              (DBG_stmt (operand_tokens (OVar "counter"))) width4 = Raised r'
            /\ fthrows width4 = true))
       /\ store (core r') = store (core width4)
       /\ calls (core r') = calls (core width4)
       /\ fthrows r' = fthrows width4.
Proof.
  apply (pure_argument_touches_the_stream_only enabled_table disabled_table
           rconsumer (OVar "counter") width4).
  - reflexivity.
  - reflexivity.
  - left. vm_compute. reflexivity.
  - reflexivity.
Defined.

(** ** Whether the header builds *)

(** X4.  Whether a first inclusion builds.  Where a redefinition is only
    diagnosed, the header builds from every state.  Where it is refused,
    the header builds when neither [AMQP_DEBUG] nor [DBG] is defined
    before, and it builds only if [AMQP_DEBUG] is undefined or defined with
    the token [1] and [DBG] is undefined or defined with the parameter and
    the tokens of line 10. *)
Theorem header_builds (st : pp_state) :
  once st = false ->
  is_Some (include_debug_h WarnLastWins st)
  /\ (macros st !! "AMQP_DEBUG" = None ->
      macros st !! "DBG" = None ->
      is_Some (include_debug_h Reject st))
  /\ (is_Some (include_debug_h Reject st) ->
      (macros st !! "AMQP_DEBUG" = None
       \/ macros st !! "AMQP_DEBUG" = Some (ObjMacro [TInt 1]))
      /\ (macros st !! "DBG" = None
          \/ macros st !! "DBG" = Some DBG_enabled)).
Proof.
  intros Ho.
  assert (Hrun : forall pol,
             include_debug_h pol st
             = define pol "AMQP_DEBUG" (ObjMacro [TInt 1])
                 (PPState (macros st) true (redefined st))
                 ≫= define pol "DBG" DBG_enabled).
  { intros pol. unfold include_debug_h. rewrite Ho. unfold debug_h.
    cbn [run_directives run_directive flag_default].
    destruct (define pol "AMQP_DEBUG" (ObjMacro [TInt 1])
                (PPState (macros st) true (redefined st))) as [st1|] eqn:Hd;
      [|reflexivity].
    cbn [mbind option_bind].
    rewrite (run_switch_define pol st1 true)
      by (apply eval_if_default, (define_lookup _ _ _ _ _ Hd)).
    destruct (define pol "DBG" DBG_enabled st1); reflexivity. }
  split; [|split].
  - rewrite Hrun.
    destruct (define_last_wins "AMQP_DEBUG" (ObjMacro [TInt 1])
                (PPState (macros st) true (redefined st))) as [st1 ->].
    apply define_last_wins.
  - intros Hf Hdbg. rewrite Hrun.
    destruct (proj2 (define_reject_iff "AMQP_DEBUG" (ObjMacro [TInt 1])
                (PPState (macros st) true (redefined st))) (or_introl Hf))
      as [st1 Hd].
    rewrite Hd. cbn [mbind option_bind]. apply define_reject_iff.
    rewrite (define_other _ _ "DBG" _ _ _ Hd) by discriminate. auto.
  - rewrite Hrun. intros Hs.
    destruct (define Reject "AMQP_DEBUG" (ObjMacro [TInt 1])
                (PPState (macros st) true (redefined st)))
      as [st1|] eqn:Hd; [|destruct Hs; discriminate].
    cbn [mbind option_bind] in Hs. split.
    + apply (define_reject_iff "AMQP_DEBUG" (ObjMacro [TInt 1])
               (PPState (macros st) true (redefined st))).
      rewrite Hd. eexists; reflexivity.
    + apply define_reject_iff in Hs.
      rewrite (define_other _ _ "DBG" _ _ _ Hd) in Hs by discriminate.
      exact Hs.
Qed.

Lemma header_builds_witness :
  is_Some (include_debug_h WarnLastWins (initial_pp (flag_table 0)))
  /\ (macros (initial_pp (flag_table 0)) !! "AMQP_DEBUG" = None ->
      macros (initial_pp (flag_table 0)) !! "DBG" = None ->
      is_Some (include_debug_h Reject (initial_pp (flag_table 0))))
  /\ (is_Some (include_debug_h Reject (initial_pp (flag_table 0))) ->
      (macros (initial_pp (flag_table 0)) !! "AMQP_DEBUG" = None
       \/ macros (initial_pp (flag_table 0)) !! "AMQP_DEBUG"
          = Some (ObjMacro [TInt 1]))
      /\ (macros (initial_pp (flag_table 0)) !! "DBG" = None
          \/ macros (initial_pp (flag_table 0)) !! "DBG" = Some DBG_enabled)).
Proof. apply (header_builds (initial_pp (flag_table 0))). reflexivity. Defined.

(** ** The two evaluations agree on a stream in its default configuration *)

Lemma type_of_lifted (G : gmap string decl) (e : expr) :
  type_of (erase <$> (lift <$> G)) e = type_of G e.
Proof.
  induction e as [n | x | x | f | | a IHa | a IHa b IHb | a IHa b IHb
                 | a IHa b IHb | c IHc a IHa b IHb];
    cbn [type_of]; rewrite ?IHa, ?IHb, ?IHc; try reflexivity.
  - rewrite !lookup_fmap. destruct (G !! x) as [[|body]|]; reflexivity.
  - rewrite !lookup_fmap. destruct (G !! f) as [[|body]|]; reflexivity.
Qed.

Lemma compile_lifted (G : gmap string decl) (ts : list token) :
  compile (erase <$> (lift <$> G)) ts = compile G ts.
Proof.
  unfold compile. destruct (parse_stmt ts) as [[|e]|]; try reflexivity.
  cbn [mbind option_bind well_typed]. rewrite type_of_lifted. reflexivity.
Qed.

Lemma set_core_default (r : rstate) (s : state) :
  default_stream r -> default_stream (set_core r s O).
Proof. intros (_ & Hq & Ha). repeat split; assumption. Qed.

Lemma set_core_same (r : rstate) : fwidth r = O -> set_core r (core r) O = r.
Proof. destruct r as [s w th d]. cbn. intros ->. reflexivity. Qed.

Lemma put_text_default (t : list byte) (r : rstate) :
  default_stream r ->
  put_text t r = Done (set_core r (write t (core r)) O).
Proof.
  intros (Hw & Hq & Ha). unfold put_text, write, signal.
  destruct (failed (core r)) eqn:Hf.
  - rewrite Hq, (set_core_same r Hw). reflexivity.
  - rewrite Hw, pad_none.
    rewrite (proj2 (Nat.leb_le _ _) (Ha (out (core r)) t)). reflexivity.
Qed.

Lemma reval_default (G : gmap string decl) (e : expr) :
  forall r : rstate,
    default_stream r ->
    reval (lift <$> G) e r
    = match eval G e (core r) with
      | Some (v, s') => Done (v, set_core r s' O)
      | None => Stuck
      end.
Proof.
  induction e as [n | x | x | f | | a IHa | a IHa b IHb | a IHa b IHb
                 | a IHa b IHb | c IHc a IHa b IHb];
    intros r Hd; pose proof (set_core_same r (proj1 Hd)) as Hid;
    cbn [reval eval].
  - rewrite Hid. reflexivity.
  - rewrite Hid. reflexivity.
  - rewrite lookup_fmap. destruct (G !! x) as [[|body]|]; cbn;
      rewrite ?Hid; reflexivity.
  - rewrite lookup_fmap. destruct (G !! f) as [[|body]|]; cbn;
      rewrite ?(proj1 Hd); reflexivity.
  - rewrite Hid. reflexivity.
  - rewrite (IHa r Hd). destruct (eval G a (core r)) as [[[z|x|] s1]|];
      reflexivity.
  - rewrite (IHa r Hd). destruct (eval G a (core r)) as [[[z|x|] s1]|];
      cbn [andthen fst snd]; try reflexivity.
    rewrite (IHb _ (set_core_default r s1 Hd)). cbn [core set_core].
    destruct (eval G b s1) as [[vb s2]|]; cbn [andthen fst snd];
      [|reflexivity].
    destruct (render vb) as [t|]; [|reflexivity].
    change (set_core (set_core r s1 O) s2 O) with (set_core r s2 O).
    rewrite (put_text_default t _ (set_core_default r s2 Hd)). reflexivity.
  - rewrite (IHa r Hd). destruct (eval G a (core r)) as [[[z|x|] s1]|];
      cbn [andthen fst snd]; try reflexivity.
    rewrite (IHb _ (set_core_default r s1 Hd)). cbn [core set_core].
    destruct (eval G b s1) as [[[y|y|] s2]|]; reflexivity.
  - rewrite (IHa r Hd). destruct (eval G a (core r)) as [[va s1]|];
      cbn [andthen fst snd core set_core]; [|reflexivity].
    destruct (truthy s1 va); [|reflexivity].
    rewrite (IHb _ (set_core_default r s1 Hd)). cbn [core set_core].
    destruct (eval G b s1) as [[vb s2]|]; reflexivity.
  - rewrite (IHc r Hd). destruct (eval G c (core r)) as [[vc s1]|];
      cbn [andthen fst snd core set_core]; [|reflexivity].
    destruct (truthy s1 vc).
    + rewrite (IHa _ (set_core_default r s1 Hd)). cbn [core set_core].
      destruct (eval G a s1) as [[v s2]|]; reflexivity.
    + rewrite (IHb _ (set_core_default r s1 Hd)). cbn [core set_core].
      destruct (eval G b s1) as [[v s2]|]; reflexivity.
Qed.

(** On a stream with no pending width, a clear exception mask and a device
    that takes everything, a call site runs in the evaluation with the
    stream's state exactly as in the evaluation without it. *)
Lemma rrun_site_default (G : gmap string decl) (tbl : gmap string macro)
    (c : site) (r : rstate) :
  default_stream r ->
  rrun_site (lift <$> G) tbl c r
  = match run_site G tbl c (core r) with
    | Some s' => Done (set_core r s' O)
    | None => Stuck
    end.
Proof.
  intros Hd. unfold rrun_site, run_site.
  destruct (expand_site tbl c) as [ts|]; [|reflexivity].
  cbn [mbind option_bind]. unfold rrun_tokens, run_tokens.
  rewrite compile_lifted. destruct (compile G ts) as [[|e]|];
    cbn [mbind option_bind rexec exec]; [| |reflexivity].
  - rewrite (set_core_same r (proj1 Hd)). reflexivity.
  - rewrite (reval_default G e r Hd).
    destruct (eval G e (core r)) as [[v s']|]; reflexivity.
Qed.
